(** * IntrusiveSharedPointer: intrusive reference counting and free lists

    A shallow embedding of [IntrusiveShp.hpp] (the control block [ShpBase]
    and the handle template [Shp<T>]) and of the free-list header
    (classes [FreeListNode] and [FreeListBase]), followed by the properties
    of the reference-counting and pooling protocol.

    [IntrusiveShp.hpp] carries two texts of the class [Shp], lines 1-246 and
    lines 247-522.  They differ only in the two assignment templates:
    module [Shp] follows the first text, module [ShpDecFirst] the
    assignment operators of the second, whose move template is ill-formed
    and has no embedding.  The two texts of the free-list
    header differ only in a [const] on the declaration of
    [FreeListNode::unmanage].

    Memory is explicit.  Pointers are machine words ([Z], [nullptr] is 0);
    objects, free lists and handles live in three finite maps keyed by
    their address, so that two references to one object ([this] and [rhs]
    in [h = h]) are two uses of one key.  Every [std::atomic] operation and
    every section run under [mtx_] is one indivisible step of the model: a
    concurrent execution is any interleaving of such steps, that is, a
    sequence of them. *)

From stdpp Require Import base gmap list.

Local Open Scope Z_scope.

(** ** Machine integers *)

(** [std::atomic<int>]: 32-bit two's complement, wrapping. *)
Definition wrap_int (z : Z) : Z := (z + 2 ^ 31) mod 2 ^ 32 - 2 ^ 31.

(** [std::atomic<unsigned>]: arithmetic modulo 2^32. *)
Definition wrap_unsigned (z : Z) : Z := z mod 2 ^ 32.

Definition INT_MAX : Z := 2 ^ 31 - 1.

Definition nullptr : Z := 0.

(** ** Memory *)

(** The dynamic type of an object selects the [unmanage] override that a
    virtual call reaches. *)
Inductive vtable : Type :=
| ShpBase_vtbl        (* ShpBase::unmanage: delete this *)
| FreeListNode_vtbl.  (* FreeListNode::unmanage *)

(** An object derived from [ShpBase].  [refcnt_] is the control block's
    counter.  [u_] is the word shared by the union members [u_.list_] and
    [u_.next_] of a [FreeListNode] (unused by other classes).  [destroyed]
    is set by [delete]: the storage is gone and every later access is
    undefined; the record keeps the last contents of the object. *)
Record object : Type := mkObject {
  refcnt_ : Z;
  u_ : Z;
  vptr : vtable;
  destroyed : bool
}.

(** A [FreeListBase]: the head of the chain and the advisory counter (the
    mutex has no state of its own in a model whose steps are the critical
    sections). *)
Record FreeListBase : Type := mkFreeListBase {
  anchor_ : Z;
  avail_ : Z
}.

(** [shps] holds the member [p_] of every handle ([Shp<T>]) by the address
    of the handle.  [unmanaged] is a ghost trace: the addresses on which
    [unmanage] was called, oldest first. *)
Record state : Type := mkState {
  objs : gmap Z object;
  lists : gmap Z FreeListBase;
  shps : gmap Z Z;
  unmanaged : list Z
}.

Definition set_objs (f : gmap Z object -> gmap Z object) (s : state) : state :=
  mkState (f (objs s)) (lists s) (shps s) (unmanaged s).

Definition set_lists (f : gmap Z FreeListBase -> gmap Z FreeListBase) (s : state) : state :=
  mkState (objs s) (f (lists s)) (shps s) (unmanaged s).

Definition set_shps (f : gmap Z Z -> gmap Z Z) (s : state) : state :=
  mkState (objs s) (lists s) (f (shps s)) (unmanaged s).

Definition set_unmanaged (f : list Z -> list Z) (s : state) : state :=
  mkState (objs s) (lists s) (shps s) (f (unmanaged s)).

(** ** Computations: state, [throw std::bad_alloc()], undefined behaviour *)

Inductive outcome (A : Type) : Type :=
| Ok (a : A) (s : state)
| Throw_bad_alloc (s : state)
| Undefined.

Arguments Ok {A} a s.
Arguments Throw_bad_alloc {A} s.
Arguments Undefined {A}.

Definition M (A : Type) : Type := state -> outcome A.

Definition ret {A} (a : A) : M A := fun s => Ok a s.

Definition bind {A B} (m : M A) (k : A -> M B) : M B :=
  fun s =>
    match m s with
    | Ok a s' => k a s'
    | Throw_bad_alloc s' => Throw_bad_alloc s'
    | Undefined => Undefined
    end.

Definition throw_bad_alloc {A} : M A := fun s => Throw_bad_alloc s.

Notation "'let*' x := m 'in' k" := (bind m (fun x => k))
  (at level 10, x name, m at level 100, k at level 200).
Notation "'do' m 'then' k" := (bind m (fun _ => k))
  (at level 10, m at level 100, k at level 200).

(** [if ( p )] on a pointer. *)
Definition when_ptr (p : Z) (m : M unit) : M unit :=
  if p =? nullptr then ret tt else m.

(** Access to the object at [p]: defined only for a live object. *)
Definition deref (p : Z) : M object :=
  fun s =>
    match objs s !! p with
    | Some o => if destroyed o then Undefined else Ok o s
    | None => Undefined
    end.

Definition store (p : Z) (o : object) : M unit :=
  fun s => Ok tt (set_objs <[p := o]> s).

Definition with_refcnt (c : Z) (o : object) : object :=
  mkObject c (u_ o) (vptr o) (destroyed o).

Definition with_u (w : Z) (o : object) : object :=
  mkObject (refcnt_ o) w (vptr o) (destroyed o).

Definition with_destroyed (o : object) : object :=
  mkObject (refcnt_ o) (u_ o) (vptr o) true.

Definition deref_list (l : Z) : M FreeListBase :=
  fun s =>
    match lists s !! l with
    | Some L => Ok L s
    | None => Undefined
    end.

Definition store_list (l : Z) (L : FreeListBase) : M unit :=
  fun s => Ok tt (set_lists <[l := L]> s).

(** ** class ShpBase (IntrusiveShp.hpp, lines 14-63) *)

(** [refcnt_.fetch_add(d)]: one atomic read-modify-write that returns the
    value read. *)
Definition refcnt_fetch_add (this : Z) (d : Z) : M Z :=
  let* o := deref this in
  do store this (with_refcnt (wrap_int (refcnt_ o + d)) o) then
  ret (refcnt_ o).

(** [refcnt_.fetch_sub(d)]. *)
Definition refcnt_fetch_sub (this : Z) (d : Z) : M Z :=
  refcnt_fetch_add this (- d).

(** [int incRef() const { return refcnt_.fetch_add(1); }] *)
Definition incRef (this : Z) : M Z := refcnt_fetch_add this 1.

(** [long use_count() const { return refcnt_.load(); }] *)
Definition use_count (this : Z) : M Z :=
  let* o := deref this in ret (refcnt_ o).

(** [virtual void unmanage(const Key &) const { delete this; }] *)
Definition ShpBase_unmanage (this : Z) : M unit :=
  let* o := deref this in store this (with_destroyed o).

(** ** class FreeListNode (free-list header, lines 18-73) *)

(** [FreeListNode *next() const] *)
Definition next (this : Z) : M Z :=
  let* c := use_count this in
  if c =? 0 then (let* o := deref this in ret (u_ o)) else throw_bad_alloc.

(** [void setNext(FreeListNode *p) const] *)
Definition setNext (this : Z) (p : Z) : M unit :=
  let* c := use_count this in
  if c =? 0 then (let* o := deref this in store this (with_u p o)) else throw_bad_alloc.

(** [FreeListBase *list() const]: reads the same word through the other
    union member. *)
Definition list_ (this : Z) : M Z :=
  let* c := use_count this in
  if c =? 0 then (let* o := deref this in ret (u_ o)) else throw_bad_alloc.

(** [void setList(FreeListBase *p) const] *)
Definition setList (this : Z) (p : Z) : M unit :=
  let* c := use_count this in
  if c =? 0 then (let* o := deref this in store this (with_u p o)) else throw_bad_alloc.

(** ** class FreeListBase (free-list header, lines 76-133) *)

(** [avail_.fetch_add(d)] *)
Definition avail_fetch_add (this : Z) (d : Z) : M Z :=
  let* L := deref_list this in
  do store_list this (mkFreeListBase (anchor_ L) (wrap_unsigned (avail_ L + d))) then
  ret (avail_ L).

Definition set_anchor (this : Z) (p : Z) : M unit :=
  let* L := deref_list this in
  store_list this (mkFreeListBase p (avail_ L)).

(** [virtual void put(FreeListNode *p)]
<<
    std::unique_lock l( mtx_ );
    p->setNext( anchor_ );
    anchor_ = p;
    avail_.fetch_add(1);
>> *)
Definition put (this : Z) (p : Z) : M unit :=
  let* L := deref_list this in
  do setNext p (anchor_ L) then
  do set_anchor this p then
  do avail_fetch_add this 1 then
  ret tt.

(** [virtual FreeListNode *getRaw()]
<<
    std::unique_lock l( mtx_ );
    auto rv = anchor_;
    if ( rv ) {
        anchor_ = rv->next();
        rv->setList( this );
        avail_.fetch_sub(1);
    }
    return rv;
>> *)
Definition getRaw (this : Z) : M Z :=
  let* L := deref_list this in
  let rv := anchor_ L in
  do when_ptr rv (
    let* n := next rv in
    do set_anchor this n then
    do setList rv this then
    do avail_fetch_add this (- 1) then
    ret tt) then
  ret rv.

(** Modelled from the spec: the body of [FreeListNode::unmanage], which the
    header only declares ("unmanage() returns the object to the associated
    free list").  The specification says that the release hook of a pool
    node, "instead of destroying the object, instructs the owning pool to
    accept the node back": the owner is read with [list()] and the node is
    handed to its [put]. *)
Definition FreeListNode_unmanage (this : Z) : M unit :=
  let* l := list_ this in put l this.

(** ** The release hook and [decRef] *)

Definition note_unmanage (this : Z) : M unit :=
  fun s => Ok tt (set_unmanaged (fun t => t ++ [this]) s).

(** The virtual call [unmanage(Key())]: dispatch on the dynamic type. *)
Definition unmanage (this : Z) : M unit :=
  let* o := deref this in
  do note_unmanage this then
  match vptr o with
  | ShpBase_vtbl => ShpBase_unmanage this
  | FreeListNode_vtbl => FreeListNode_unmanage this
  end.

(** [int decRef() const]
<<
    int rv = refcnt_.fetch_sub(1);
    if ( 1 == rv ) {
        unmanage(Key());
    }
    return rv;
>>
    Whether the hook runs depends only on the value the atomic [fetch_sub]
    read; the hook then runs in the calling thread before [decRef] returns,
    and the model takes it in the same step. *)
Definition decRef (this : Z) : M Z :=
  let* rv := refcnt_fetch_sub this 1 in
  do (if 1 =? rv then unmanage this else ret tt) then
  ret rv.

(** ** template <typename T> class Shp (IntrusiveShp.hpp, lines 65-232) *)

(** The value category of an argument expression decides which overload a
    call reaches.  An rvalue reference [Shp<U> &&] (with [U] deduced inside
    [Shp<U>], so not a forwarding reference, C++17 [temp.deduct.call]/3)
    binds only to an xvalue or a prvalue ([dcl.init.ref]/5);
    [const Shp<U> &] binds to everything.  The name of a variable, also of
    one declared [Shp &&rhs], is an lvalue expression ([expr.prim.id]). *)
Inductive value_category : Type :=
| lvalue
| xvalue.

Module Shp.

(** The member [p_] of the handle at address [this]. *)
Definition get (this : Z) : M Z :=
  fun s =>
    match shps s !! this with
    | Some p => Ok p s
    | None => Undefined
    end.

Definition set_p_ (this : Z) (p : Z) : M unit :=
  fun s => Ok tt (set_shps <[this := p]> s).

(** [Shp() : p_(nullptr) {}] *)
Definition ctor_default (this : Z) : M unit := set_p_ this nullptr.

(** [Shp(T *p) : p_(p) { if ( p_ ) p_->incRef(); }] *)
Definition ctor_ptr (this : Z) (p : Z) : M unit :=
  do set_p_ this p then
  when_ptr p (do incRef p then ret tt).

(** [long use_count() const { return p_ ? p_->refcnt_.load() : 0; }] *)
Definition use_count (this : Z) : M Z :=
  let* p := get this in
  if p =? nullptr then ret 0 else use_count p.

(** [template <typename U> Shp(const Shp<U> &rhs, struct dummy_tag)]
    (lines 98-108) *)
Definition ctor_copy_tag (this rhs : Z) : M unit :=
  let* p := get rhs in
  do set_p_ this p then
  when_ptr p (do incRef p then ret tt).

(** [template <typename U> Shp(Shp<U> &&rhs, struct dummy_tag)]
    (lines 110-118):
<<
    p_ = rhs.get();
    rhs.p_ = nullptr;
>> *)
Definition ctor_move_tag (this rhs : Z) : M unit :=
  let* p := get rhs in
  do set_p_ this p then
  set_p_ rhs nullptr.

(** Overload resolution of [Shp( e, dummy_tag() )] for an argument [e] of
    category [cat]: the two private constructors are the candidates. *)
Definition ctor_tag (cat : value_category) (this rhs : Z) : M unit :=
  match cat with
  | lvalue => ctor_copy_tag this rhs
  | xvalue => ctor_move_tag this rhs
  end.

(** [Shp(const Shp<U> &rhs) : Shp( rhs, dummy_tag() )] and
    [Shp(const Shp &rhs) : Shp( rhs, dummy_tag() )] (lines 122-131). *)
Definition ctor_copy (this rhs : Z) : M unit := ctor_tag lvalue this rhs.

(** [Shp(Shp<U> &&rhs) : Shp( rhs, dummy_tag() )] and
    [Shp(Shp &&rhs) : Shp( rhs, dummy_tag() )] (lines 133-142).  The
    argument of the delegation is the parameter's name [rhs], with no
    [std::move] around it: an lvalue. *)
Definition ctor_move (this rhs : Z) : M unit := ctor_tag lvalue this rhs.

(** [template <typename U> Shp & operator=(const Shp<U> &rhs)]
    (lines 144-158):
<<
    auto old = p_;
    if ( (p_ = rhs.get()) ) {
        p_->incRef();
    }
    if ( old ) {
        old->decRef();
    }
>> *)
Definition assign_copy_tmpl (this rhs : Z) : M unit :=
  let* old := get this in
  let* p := get rhs in
  do set_p_ this p then
  do when_ptr p (do incRef p then ret tt) then
  when_ptr old (do decRef old then ret tt).

(** [template <typename U> Shp & operator=(Shp<U> &&rhs)] (lines 165-180):
<<
    T *p;
    // no-op if both are nullptr or both reference the same object
    if ( (p = get()) != (p_ = rhs.get()) ) {
        if ( p ) {
            p->decRef();
        }
        rhs.p_ = nullptr;
    }
>>
    The operands of [!=] are taken left to right, as written. *)
Definition assign_move_tmpl (this rhs : Z) : M unit :=
  let* p := get this in
  let* q := get rhs in
  do set_p_ this q then
  if p =? q then ret tt
  else
    do when_ptr p (do decRef p then ret tt) then
    set_p_ rhs nullptr.

(** Overload resolution of [operator=<T>( e )] for an argument [e] of
    category [cat]: the explicit template argument leaves the two member
    templates as candidates. *)
Definition assign_tmpl (cat : value_category) (this rhs : Z) : M unit :=
  match cat with
  | lvalue => assign_copy_tmpl this rhs
  | xvalue => assign_move_tmpl this rhs
  end.

(** [Shp & operator=(const Shp &rhs) { return operator=<T>(rhs); }]
    (lines 160-163) *)
Definition assign_copy (this rhs : Z) : M unit := assign_tmpl lvalue this rhs.

(** [Shp & operator=(Shp &&rhs) { return operator=<T>(rhs); }]
    (lines 182-185): again the argument is the name [rhs]. *)
Definition assign_move (this rhs : Z) : M unit := assign_tmpl lvalue this rhs.

(** The assignment expression [lhs = e] at a call site: [cat] is the
    category of [e], and [same_type] tells whether [e] is a [Shp<T>] (the
    non-template operators win) or a [Shp<U>] of another element type. *)
Definition assign (cat : value_category) (same_type : bool) (this rhs : Z) : M unit :=
  match cat, same_type with
  | lvalue, true => assign_copy this rhs
  | lvalue, false => assign_copy_tmpl this rhs
  | xvalue, true => assign_move this rhs
  | xvalue, false => assign_move_tmpl this rhs
  end.

(** The initialisation [Shp<T> lhs( e )] from another handle. *)
Definition construct (cat : value_category) (this rhs : Z) : M unit :=
  match cat with
  | lvalue => ctor_copy this rhs
  | xvalue => ctor_move this rhs
  end.

(** [~Shp() { if ( p_ ) p_->decRef(); }]; the handle then ceases to exist. *)
Definition dtor (this : Z) : M unit :=
  let* p := get this in
  do when_ptr p (do decRef p then ret tt) then
  fun s => Ok tt (set_shps (delete this) s).

(** [void reset()] *)
Definition reset (this : Z) : M unit :=
  let* p := get this in
  when_ptr p (do decRef p then set_p_ this nullptr).

(** [void swap(Shp &rhs)] *)
Definition swap (this rhs : Z) : M unit :=
  let* tmp := get rhs in
  let* p := get this in
  do set_p_ rhs p then
  set_p_ this tmp.

(** [operator bool() const { return !!p_; }] *)
Definition to_bool (this : Z) : M bool :=
  let* p := get this in ret (negb (p =? nullptr)).

End Shp.

(** The second text of the assignment operators in [IntrusiveShp.hpp]
    (lines 412-460), which release the old share first.  Everything else in
    that text of the class is as in [Shp]. *)
Module ShpDecFirst.

(** [template <typename U> Shp & operator=(const Shp<U> &rhs)]
    (lines 412-428):
<<
    // we can decrement 'this' right away - if both
    // 'this' and 'rhs' reference the same object then
    // 'this' cannot drop to zero even if we decrement first.
    if ( p_ ) {
        p_->decRef();
    }
    if ( (p_ = rhs.get()) ) {
        p_->incRef();
    }
>> *)
Definition assign_copy_tmpl (this rhs : Z) : M unit :=
  let* old := Shp.get this in
  do when_ptr old (do decRef old then ret tt) then
  let* p := Shp.get rhs in
  do Shp.set_p_ this p then
  when_ptr p (do incRef p then ret tt).

(** [template <typename U> Shp & operator=(Shp<U> &&rhs)] (lines 437-455)
    has no embedding.  Its body ends in
<<
    rhs.p = nullptr;
>>
    and the class has no member [p] (only [p_]): the template is ill-formed
    as soon as it is instantiated, so no program calls it.  A call that
    would select it has no outcome in the model. *)
Definition not_instantiable : M unit := fun _ => Undefined.

(** Overload resolution of [operator=<T>( e )], as in [Shp]. *)
Definition assign_tmpl (cat : value_category) (this rhs : Z) : M unit :=
  match cat with
  | lvalue => assign_copy_tmpl this rhs
  | xvalue => not_instantiable
  end.

(** [Shp & operator=(const Shp &rhs) { return operator=<T>(rhs); }]
    (lines 432-435) *)
Definition assign_copy (this rhs : Z) : M unit := assign_tmpl lvalue this rhs.

(** [Shp & operator=(Shp &&rhs) { return operator=<T>(rhs); }]
    (lines 457-460) *)
Definition assign_move (this rhs : Z) : M unit := assign_tmpl lvalue this rhs.

(** The assignment expression [lhs = e] at a call site, as in [Shp]. *)
Definition assign (cat : value_category) (same_type : bool) (this rhs : Z) : M unit :=
  match cat, same_type with
  | lvalue, true => assign_copy this rhs
  | lvalue, false => assign_copy_tmpl this rhs
  | xvalue, true => assign_move this rhs
  | xvalue, false => not_instantiable
  end.

End ShpDecFirst.

(** [template <typename T> Shp<T> FreeListBase::get()]
<<
    auto p = getRaw();
    return Shp<T>(static_cast<T*>( p ));
>>
    The returned handle is constructed at address [result]. *)
Definition get (this : Z) (result : Z) : M unit :=
  let* p := getRaw this in
  Shp.ctor_ptr result p.

(** ** The destructor of [FreeListBase] (free-list header, lines 112-122) *)

(** [delete p] on an object derived from [ShpBase] (its destructor is
    virtual and has an empty body). *)
Definition delete_ (p : Z) : M unit :=
  let* o := deref p in store p (with_destroyed o).

(** The loop of the destructor,
<<
    while ( auto p = getRaw() ) {
        delete p;
    }
>>
    run for at most [fuel] calls of [getRaw]; the result tells whether the
    loop came to its end ([getRaw] returned [nullptr]) within them. *)
Fixpoint drain (fuel : nat) (this : Z) : M bool :=
  match fuel with
  | O => ret false
  | S fuel' =>
      let* p := getRaw this in
      if p =? nullptr then ret true
      else do delete_ p then drain fuel' this
  end.

(** [virtual ~FreeListBase()]: the loop, after which the list itself is
    gone. *)
Definition FreeListBase_dtor (fuel : nat) (this : Z) : M bool :=
  let* finished := drain fuel this in
  if finished
  then do (fun s => Ok tt (set_lists (delete this) s)) then ret true
  else ret false.

(** ** The comparison operators (IntrusiveShp.hpp, lines 234-244) *)

(** [template <typename L, typename R>
     static bool operator==(Shp<L> lhs, Shp<R> rhs)
     { return lhs.get() == rhs.get(); }]
    Both parameters are passed by value: [lhs] and [rhs] are handles of
    their own, built at the addresses [lhs] and [rhs] from the argument
    expressions (the handles at [l] and [r], of categories [cl] and [cr]),
    and they end when the call is over. *)
Definition operator_eq (cl cr : value_category) (l r lhs rhs : Z) : M bool :=
  do Shp.construct cl lhs l then
  do Shp.construct cr rhs r then
  let* p := Shp.get lhs in
  let* q := Shp.get rhs in
  do Shp.dtor rhs then
  do Shp.dtor lhs then
  ret (p =? q).

(** [static bool operator!=(Shp<L> lhs, Shp<R> rhs)
     { return lhs.get() != rhs.get(); }] *)
Definition operator_ne (cl cr : value_category) (l r lhs rhs : Z) : M bool :=
  do Shp.construct cl lhs l then
  do Shp.construct cr rhs r then
  let* p := Shp.get lhs in
  let* q := Shp.get rhs in
  do Shp.dtor rhs then
  do Shp.dtor lhs then
  ret (negb (p =? q)).

(** * Specification vocabulary *)

(** ** Well-formed memory *)

(** [p] points to the live object [o] in [s]. *)
Definition live (s : state) (p : Z) (o : object) : Prop :=
  objs s !! p = Some o /\ destroyed o = false.

(** The hook of [o] can run to completion in [s]: always for the default
    hook; for a pool node when the owner word names an existing list. *)
Definition hook_ready (s : state) (o : object) : Prop :=
  match vptr o with
  | ShpBase_vtbl => True
  | FreeListNode_vtbl => is_Some (lists s !! u_ o)
  end.

(** The values of an [int]. *)
Definition in_int_range (c : Z) : Prop := - 2 ^ 31 <= c <= INT_MAX.

(** ** Sequences of [incRef] and [decRef] on one object *)

Inductive refop : Type := IncRef | DecRef.

Definition do_refop (this : Z) (op : refop) : M Z :=
  match op with
  | IncRef => incRef this
  | DecRef => decRef this
  end.

Fixpoint do_refops (this : Z) (ops : list refop) : M unit :=
  match ops with
  | [] => ret tt
  | op :: rest => do do_refop this op then do_refops this rest
  end.

Definition refop_delta (op : refop) : Z :=
  match op with
  | IncRef => 1
  | DecRef => -1
  end.

(** The value of a counter that starts at [c] after the calls [ops]. *)
Definition count_after (c : Z) (ops : list refop) : Z :=
  fold_left (fun c op => wrap_int (c + refop_delta op)) ops c.

(** The calls [ops] take a counter that starts at [c] back to 0, and not
    before the last of them. *)
Definition drives_to_zero (c : Z) (ops : list refop) : Prop :=
  (forall n : nat, (n < length ops)%nat -> 0 < count_after c (take n ops)) /\
  count_after c ops = 0.

(** [decRef] from [s] on the object at [this] returns [c]; the counter is
    then one below [c]; the hook ran, once and on [this], if [c] is 1 and
    did not run otherwise. *)
Definition decRef_returns (s : state) (this c : Z) : Prop :=
  exists s' o',
    decRef this s = Ok c s' /\
    objs s' !! this = Some o' /\
    refcnt_ o' = wrap_int (c - 1) /\
    (c = 1 -> unmanaged s' = unmanaged s ++ [this]) /\
    (c <> 1 -> unmanaged s' = unmanaged s).

(** The calls [ops] from [s] all return, the counter ends at 0 and the hook
    ran exactly once in between, on [this]. *)
Definition hook_runs_once (s : state) (this : Z) (ops : list refop) : Prop :=
  exists s' o',
    do_refops this ops s = Ok tt s' /\
    objs s' !! this = Some o' /\ refcnt_ o' = 0 /\
    unmanaged s' = unmanaged s ++ [this].

(** ** Handles *)

(** An object of a class that keeps the default hook, with counter [c]. *)
Definition plain_object (c : Z) : object := mkObject c 0 ShpBase_vtbl false.

(** A [FreeListNode] with counter [c] and link word [u]. *)
Definition node_object (c : Z) (u : Z) : object := mkObject c u FreeListNode_vtbl false.

(** One object at address 10 with counter 1, owned by the handle at 100. *)
Definition sole_owner : state :=
  mkState {[ 10 := plain_object 1 ]} ∅ {[ 100 := 10 ]} [].

(** The same with a pool node that was checked out of the list at 200. *)
Definition sole_owner_of_node : state :=
  mkState {[ 10 := node_object 1 200 ]} {[ 200 := mkFreeListBase 0 0 ]}
          {[ 100 := 10 ]} [].

(** One object with counter 2, shared by the handles at 100 and 101. *)
Definition two_owners : state :=
  mkState {[ 10 := plain_object 2 ]} ∅ {[ 100 := 10; 101 := 10 ]} [].

(** What C4 asks of [h1 = std::move(h2)] run as [op] from [s]: it returns,
    the counter of the object at [p] is still [n], and [h2] is empty. *)
Definition moved_keeping_count (op : Z -> Z -> M unit) (s : state) (h1 h2 p n : Z) : Prop :=
  exists s' o',
    op h1 h2 s = Ok tt s' /\
    objs s' !! p = Some o' /\ refcnt_ o' = n /\
    shps s' !! h2 = Some nullptr.

(** The outcome C5 describes for [h1 = h2] run as [op] from [s], where
    [h1] held the only share of [A] and [h2] points to [B], whose counter
    was [nB]: the call returns; [A]'s counter is 0 and the hook has run
    once more than before, on [A]; [B]'s counter is one higher; both
    handles point to [B]. *)
Definition released_and_retargeted
    (op : Z -> Z -> M unit) (s : state) (h1 h2 A B nB : Z) : Prop :=
  exists s' oA' oB',
    op h1 h2 s = Ok tt s' /\
    objs s' !! A = Some oA' /\ refcnt_ oA' = 0 /\
    unmanaged s' = unmanaged s ++ [A] /\
    objs s' !! B = Some oB' /\ destroyed oB' = false /\
    refcnt_ oB' = wrap_int (nB + 1) /\
    (in_int_range nB -> nB < INT_MAX -> refcnt_ oB' = nB + 1) /\
    shps s' !! h1 = Some B /\ shps s' !! h2 = Some B.

(** The handle at 100 is the only owner of the object at 10; the handle at
    101 is one of the three owners of the object at 20. *)
Definition owner_and_other : state :=
  mkState {[ 10 := plain_object 1; 20 := plain_object 3 ]} ∅
          {[ 100 := 10; 101 := 20 ]} [].

(** ** Free lists *)

(** What C6 asks of [put(p)] on the list at [this] whose head was [head]:
    it returns, [p] is the new head, [p]'s next pointer is the former head,
    and [p]'s owner is this list. *)
Definition put_links_and_records_owner (s : state) (this p head : Z) : Prop :=
  exists s' L',
    put this p s = Ok tt s' /\
    lists s' !! this = Some L' /\ anchor_ L' = p /\
    next p s' = Ok head s' /\
    list_ p s' = Ok this s'.

(** An empty list at 200 and a node with counter 0 at 10. *)
Definition empty_list_and_node : state :=
  mkState {[ 10 := node_object 0 0 ]} {[ 200 := mkFreeListBase nullptr 0 ]} ∅ [].

(** The outcome of the round trip of C7 from [s]: [put(p)] and then
    [get<T>()], whose handle is built at [result], both return; the handle
    points to [p]; [p]'s counter is 1 and its owner word names the list;
    the list has its former head again. *)
Definition round_trip (s : state) (this p result : Z) (L : FreeListBase) (o : object) : Prop :=
  exists s',
    (do put this p then get this result) s = Ok tt s' /\
    shps s' !! result = Some p /\
    objs s' !! p = Some (with_refcnt 1 (with_u this o)) /\
    lists s' !! this
    = Some (mkFreeListBase (anchor_ L)
              (wrap_unsigned (wrap_unsigned (avail_ L + 1) - 1))) /\
    unmanaged s' = unmanaged s.

(** [getRaw] from [s] detaches the head [rv]: it returns [rv], whose
    counter is still 0 and whose owner accessor now returns this list, and
    the list's head is what [rv]'s next pointer was. *)
Definition checked_out_raw (s : state) (this rv : Z) (o : object) : Prop :=
  exists s' L',
    getRaw this s = Ok rv s' /\
    objs s' !! rv = Some (with_u this o) /\ refcnt_ (with_u this o) = 0 /\
    list_ rv s' = Ok this s' /\
    lists s' !! this = Some L' /\ anchor_ L' = u_ o.

(** [get<T>()] from [s], building the handle at [result], and then the end
    of that handle: both return, the hook ran once, on [rv], and [rv] is the
    head of the list at [this] again, with counter 0. *)
Definition returns_to_list (s : state) (this rv result : Z) : Prop :=
  exists s' L' o',
    (do get this result then Shp.dtor result) s = Ok tt s' /\
    unmanaged s' = unmanaged s ++ [rv] /\
    lists s' !! this = Some L' /\ anchor_ L' = rv /\
    objs s' !! rv = Some o' /\ refcnt_ o' = 0 /\ destroyed o' = false /\
    shps s' !! result = None.

(** The node at 10 is put into the list at 200, taken out of it as a raw
    pointer and put into the list at 300. *)
Definition two_lists : state :=
  mkState {[ 10 := node_object 0 77 ]}
          {[ 200 := mkFreeListBase nullptr 0; 300 := mkFreeListBase nullptr 0 ]} ∅ [].

(** The calls that move the node: [put], [getRaw], [put]. *)
Definition moved_between_lists : M unit :=
  do put 200 10 then
  do getRaw 200 then
  put 300 10.

(** The state [moved_between_lists] reaches from [two_lists]. *)
Definition in_second_list : state :=
  mkState {[ 10 := node_object 0 nullptr ]}
          {[ 200 := mkFreeListBase nullptr 0; 300 := mkFreeListBase 10 1 ]} ∅ [].

(** The chain that starts at [p]: the nodes met by following the link
    words up to [nullptr]. *)
Inductive free_chain (ob : gmap Z object) : Z -> list Z -> Prop :=
| free_chain_end : free_chain ob nullptr []
| free_chain_node p o l :
    p <> nullptr -> ob !! p = Some o -> free_chain ob (u_ o) l ->
    free_chain ob p (p :: l).

(** C10 read literally: the list at [this] has a chain, and [avail_] is
    the number of its nodes. *)
Definition avail_is_chain_length (s : state) (this : Z) : Prop :=
  exists L l,
    lists s !! this = Some L /\
    free_chain (objs s) (anchor_ L) l /\
    avail_ L = Z.of_nat (length l).

(** The chain of the list at [this] is [l], without repetition, and the
    32-bit counter holds its length. *)
Definition counted_chain (s : state) (this : Z) (l : list Z) : Prop :=
  exists L,
    lists s !! this = Some L /\
    free_chain (objs s) (anchor_ L) l /\
    NoDup l /\
    avail_ L = wrap_unsigned (Z.of_nat (length l)).

(** [p] is not one of the nodes on the chain of the list at [this]. *)
Definition not_on_chain (s : state) (this p : Z) : Prop :=
  forall L l, lists s !! this = Some L -> free_chain (objs s) (anchor_ L) l -> p ∉ l.

(** What can happen to the list at [this]: a completed [put] of a node that
    is not on its chain, a completed [getRaw], or a step of the rest of the
    program that leaves the list and the nodes on its chain alone (handles
    on checked-out nodes come and go in such steps; the hook of a node is
    such a step followed by a [put]). *)
Inductive list_step (this : Z) (s s' : state) : Prop :=
| step_put p :
    p <> nullptr -> not_on_chain s this p -> put this p s = Ok tt s' ->
    list_step this s s'
| step_getRaw rv :
    getRaw this s = Ok rv s' -> list_step this s s'
| step_elsewhere :
    lists s' !! this = lists s !! this ->
    (forall L l, lists s !! this = Some L -> free_chain (objs s) (anchor_ L) l ->
                 forall p, p ∈ l -> objs s' !! p = objs s !! p) ->
    list_step this s s'.

(** The same node handed to [put] twice. *)
Definition put_twice : M unit := do put 200 10 then put 200 10.

(** The state after [put(10)] into the fresh list at 200. *)
Definition after_put : state :=
  mkState {[ 10 := node_object 0 nullptr ]} {[ 200 := mkFreeListBase 10 1 ]} ∅ [].

(** The node is checked out: its link word names the list. *)
Definition after_getRaw : state :=
  mkState {[ 10 := node_object 0 200 ]} {[ 200 := mkFreeListBase nullptr 0 ]} ∅ [].

(** ** Further vocabulary: handles, counters and the destructor *)

(** What the loop of the destructor leaves of a chain [l]: the list is
    empty, every node of [l] is destroyed (its link word was set to the
    list when it was taken off), and nothing else has changed. *)
Definition drained (s s' : state) (this : Z) (l : list Z) : Prop :=
  (exists L', lists s' !! this = Some L' /\ anchor_ L' = nullptr) /\
  (forall p, p ∈ l ->
     exists o, objs s !! p = Some o /\
               objs s' !! p = Some (with_destroyed (with_u this o))) /\
  (forall q, q ∉ l -> objs s' !! q = objs s !! q) /\
  (forall q, q <> this -> lists s' !! q = lists s !! q) /\
  shps s' = shps s /\ unmanaged s' = unmanaged s.

(** The list at 200 holds the nodes at 10 and 11; the node at 12 is checked
    out and held by the handle at 100. *)
Definition list_of_two : state :=
  mkState {[ 10 := node_object 0 11; 11 := node_object 0 nullptr;
             12 := node_object 1 200 ]}
          {[ 200 := mkFreeListBase 10 2 ]} {[ 100 := 12 ]} [].

(** The number of handles that point to [p]. *)
Definition shares (sh : gmap Z Z) (p : Z) : nat :=
  size (filter (fun hq : Z * Z => hq.2 = p) sh).

(** Every counter is the number of handles on its object (and an [int]),
    and every handle that is not empty points to a live object. *)
Definition counted_by_handles (s : state) : Prop :=
  (forall p o, p <> nullptr -> objs s !! p = Some o ->
     refcnt_ o = Z.of_nat (shares (shps s) p) /\ refcnt_ o <= INT_MAX) /\
  (forall h p, shps s !! h = Some p -> p <> nullptr -> exists o, live s p o).

(** The one share a handle with pointer [p] is of the object [q]. *)
Definition share_of (p q : Z) : nat := if decide (p = q) then 1%nat else 0%nat.

(** The counters [ob] against the handles [sh], with one share of [A] still
    to be given up (none if [A] is [nullptr]): the counter of [A] is one
    more than the number of its handles. *)
Definition counted_with_debt (ob : gmap Z object) (sh : gmap Z Z) (A : Z) : Prop :=
  (forall q o, q <> nullptr -> ob !! q = Some o ->
     refcnt_ o = Z.of_nat (shares sh q + share_of A q) /\ refcnt_ o <= INT_MAX) /\
  (forall h p, sh !! h = Some p -> p <> nullptr ->
     exists o, ob !! p = Some o /\ destroyed o = false).

(** The counters after [incRef] on the target of a handle, if it has one. *)
Definition acquired (ob : gmap Z object) (B : Z) : gmap Z object :=
  if decide (B = nullptr) then ob
  else match ob !! B with
       | Some o => <[B := with_refcnt (wrap_int (refcnt_ o + 1)) o]> ob
       | None => ob
       end.

(** The hook of whatever lives at [p] can run. *)
Definition hook_can_run (s : state) (p : Z) : Prop :=
  forall o, live s p o -> hook_ready s o.

(** The counter of whatever lives at [p] is below [INT_MAX]. *)
Definition has_room (s : state) (p : Z) : Prop :=
  forall o, live s p o -> refcnt_ o < INT_MAX.

(** No handle points to [p]. *)
Definition unowned (s : state) (p : Z) : Prop :=
  forall h, shps s !! h <> Some p.

(** The list at [this] holds the chain [l], counted by [avail_], of live
    nodes that no handle points to. *)
Definition parked (s : state) (this : Z) (l : list Z) : Prop :=
  counted_chain s this l /\
  forall p, p ∈ l -> (exists o, live s p o) /\ unowned s p.

(** The list at 200 holds the nodes at 10 and 11, the node at 12 is checked
    out and held by the handle at 100, and the node at 13 is free. *)
Definition list_and_spare : state :=
  mkState {[ 10 := node_object 0 11; 11 := node_object 0 nullptr;
             12 := node_object 1 200; 13 := node_object 0 nullptr ]}
          {[ 200 := mkFreeListBase 10 2 ]} {[ 100 := 12 ]} [].

(** * Properties *)

(** ** Basic facts about the memory model *)

Lemma wrap_int_id c : in_int_range c -> wrap_int c = c.
Proof.
  unfold in_int_range, INT_MAX, wrap_int. intros H.
  rewrite Z.mod_small; lia.
Qed.

Lemma wrap_int_range c : in_int_range (wrap_int c).
Proof.
  unfold in_int_range, INT_MAX, wrap_int.
  pose proof (Z.mod_pos_bound (c + 2 ^ 31) (2 ^ 32) ltac:(lia)). lia.
Qed.

Lemma bind_Ok {A B} (m : M A) (k : A -> M B) s a s' :
  m s = Ok a s' -> bind m k s = k a s'.
Proof. unfold bind. intros ->. reflexivity. Qed.

Lemma deref_live s p o : live s p o -> deref p s = Ok o s.
Proof. intros [H1 H2]. unfold deref. rewrite H1, H2. reflexivity. Qed.

Lemma live_store_eq s p o :
  destroyed o = false -> live (set_objs <[p := o]> s) p o.
Proof. intros H. split; [apply lookup_insert_eq | exact H]. Qed.

Lemma live_store_ne s p q o o' :
  p <> q -> live s q o' -> live (set_objs <[p := o]> s) q o'.
Proof. intros Hne [H1 H2]. split; [simpl; rewrite lookup_insert_ne; done | exact H2]. Qed.

Lemma refcnt_fetch_add_live s this o d :
  live s this o ->
  refcnt_fetch_add this d s
  = Ok (refcnt_ o) (set_objs <[this := with_refcnt (wrap_int (refcnt_ o + d)) o]> s).
Proof.
  intros H. unfold refcnt_fetch_add.
  rewrite (bind_Ok _ _ _ _ _ (deref_live _ _ _ H)). reflexivity.
Qed.

Lemma incRef_live s this o :
  live s this o ->
  incRef this s
  = Ok (refcnt_ o) (set_objs <[this := with_refcnt (wrap_int (refcnt_ o + 1)) o]> s).
Proof. apply refcnt_fetch_add_live. Qed.

Lemma use_count_live s this o : live s this o -> use_count this s = Ok (refcnt_ o) s.
Proof.
  intros H. unfold use_count.
  rewrite (bind_Ok _ _ _ _ _ (deref_live _ _ _ H)). reflexivity.
Qed.

(** [decRef] away from the last reference: the counter goes down, nothing
    else happens. *)
Lemma decRef_live_not_last s this o :
  live s this o -> refcnt_ o <> 1 ->
  decRef this s
  = Ok (refcnt_ o) (set_objs <[this := with_refcnt (wrap_int (refcnt_ o - 1)) o]> s).
Proof.
  intros H Hne. unfold decRef, refcnt_fetch_sub.
  rewrite (bind_Ok _ _ _ _ _ (refcnt_fetch_add_live _ _ _ _ H)).
  destruct (Z.eqb_spec 1 (refcnt_ o)) as [E | _]; [congruence |].
  reflexivity.
Qed.

(** The default hook on an object whose counter has just reached 0. *)
Lemma unmanage_default s this o :
  live s this o -> vptr o = ShpBase_vtbl ->
  unmanage this s
  = Ok tt (set_objs <[this := with_destroyed o]>
             (set_unmanaged (fun t => t ++ [this]) s)).
Proof.
  intros H Hv. unfold unmanage.
  rewrite (bind_Ok _ _ _ _ _ (deref_live _ _ _ H)).
  unfold note_unmanage, bind at 1. rewrite Hv.
  unfold ShpBase_unmanage.
  assert (Hl : live (set_unmanaged (fun t => t ++ [this]) s) this o) by exact H.
  rewrite (bind_Ok _ _ _ _ _ (deref_live _ _ _ Hl)). reflexivity.
Qed.

(** [setNext] and [setList] on a live node with counter 0. *)
Lemma setNext_live s this o p :
  live s this o -> refcnt_ o = 0 ->
  setNext this p s = Ok tt (set_objs <[this := with_u p o]> s).
Proof.
  intros H Hc. unfold setNext.
  rewrite (bind_Ok _ _ _ _ _ (use_count_live _ _ _ H)), Hc. simpl.
  rewrite (bind_Ok _ _ _ _ _ (deref_live _ _ _ H)). reflexivity.
Qed.

Lemma setList_live s this o p :
  live s this o -> refcnt_ o = 0 ->
  setList this p s = Ok tt (set_objs <[this := with_u p o]> s).
Proof. apply setNext_live. Qed.

Lemma next_live s this o :
  live s this o -> refcnt_ o = 0 -> next this s = Ok (u_ o) s.
Proof.
  intros H Hc. unfold next.
  rewrite (bind_Ok _ _ _ _ _ (use_count_live _ _ _ H)), Hc. simpl.
  rewrite (bind_Ok _ _ _ _ _ (deref_live _ _ _ H)). reflexivity.
Qed.

Lemma list_live s this o :
  live s this o -> refcnt_ o = 0 -> list_ this s = Ok (u_ o) s.
Proof. apply next_live. Qed.

Lemma accessor_throws s this o :
  live s this o -> refcnt_ o <> 0 ->
  next this s = Throw_bad_alloc s /\
  (forall p, setNext this p s = Throw_bad_alloc s) /\
  list_ this s = Throw_bad_alloc s /\
  (forall p, setList this p s = Throw_bad_alloc s).
Proof.
  intros H Hc.
  assert (E : (refcnt_ o =? 0) = false) by (apply Z.eqb_neq; exact Hc).
  unfold next, setNext, list_, setList.
  repeat split; intros;
    rewrite (bind_Ok _ _ _ _ _ (use_count_live _ _ _ H)), E; reflexivity.
Qed.

(** [put] of a live node with counter 0 into an existing list. *)
Lemma put_live s this L p o :
  lists s !! this = Some L -> live s p o -> refcnt_ o = 0 ->
  put this p s
  = Ok tt (set_lists <[this := mkFreeListBase p (wrap_unsigned (avail_ L + 1))]>
             (set_objs <[p := with_u (anchor_ L) o]> s)).
Proof.
  intros HL H Hc. unfold put.
  unfold deref_list, bind at 1. rewrite HL.
  rewrite (bind_Ok _ _ _ _ _ (setNext_live _ _ _ _ H Hc)).
  unfold set_anchor, avail_fetch_add, deref_list, store_list, bind, ret. simpl.
  rewrite HL. simpl. rewrite lookup_insert_eq. simpl.
  unfold set_lists. simpl. rewrite insert_insert_eq. reflexivity.
Qed.

(** The hook of a pool node whose counter has just reached 0 and whose
    owner word names the list [L]: the node becomes the head of [L]. *)
Lemma unmanage_node s this o L :
  live s this o -> vptr o = FreeListNode_vtbl -> refcnt_ o = 0 ->
  lists s !! u_ o = Some L ->
  unmanage this s
  = Ok tt (set_lists <[u_ o := mkFreeListBase this (wrap_unsigned (avail_ L + 1))]>
             (set_objs <[this := with_u (anchor_ L) o]>
                (set_unmanaged (fun t => t ++ [this]) s))).
Proof.
  intros H Hv Hc HL. unfold unmanage.
  rewrite (bind_Ok _ _ _ _ _ (deref_live _ _ _ H)).
  unfold note_unmanage, bind at 1. rewrite Hv.
  unfold FreeListNode_unmanage.
  set (s1 := set_unmanaged (fun t => t ++ [this]) s).
  assert (Hl : live s1 this o) by exact H.
  rewrite (bind_Ok _ _ _ _ _ (list_live _ _ _ Hl Hc)).
  apply (put_live s1 (u_ o) L this o); [exact HL | exact Hl | exact Hc].
Qed.

(** [decRef] on the last reference: the counter reaches 0 and the hook runs
    on that state. *)
Lemma decRef_live_last s this o :
  live s this o -> refcnt_ o = 1 ->
  decRef this s
  = bind (unmanage this) (fun _ => ret 1)
      (set_objs <[this := with_refcnt 0 o]> s).
Proof.
  intros H Hc. unfold decRef, refcnt_fetch_sub.
  rewrite (bind_Ok _ _ _ _ _ (refcnt_fetch_add_live _ _ _ _ H)).
  rewrite Hc. reflexivity.
Qed.

(** What one [decRef] does, for both hooks.  Handles and the other objects
    are never touched. *)
Lemma decRef_effect s this o :
  live s this o -> (refcnt_ o = 1 -> hook_ready s o) ->
  exists s' o',
    decRef this s = Ok (refcnt_ o) s' /\
    objs s' !! this = Some o' /\
    refcnt_ o' = wrap_int (refcnt_ o - 1) /\
    vptr o' = vptr o /\
    shps s' = shps s /\
    (forall q, q <> this -> objs s' !! q = objs s !! q) /\
    (refcnt_ o = 1 -> unmanaged s' = unmanaged s ++ [this]) /\
    (refcnt_ o <> 1 ->
       unmanaged s' = unmanaged s /\ lists s' = lists s /\
       s' = set_objs <[this := with_refcnt (wrap_int (refcnt_ o - 1)) o]> s).
Proof.
  intros H Hr.
  destruct (decide (refcnt_ o = 1)) as [Hc | Hc].
  - rewrite (decRef_live_last _ _ _ H Hc), Hc.
    set (o0 := with_refcnt 0 o).
    set (s1 := set_objs <[this := o0]> s).
    assert (Hl : live s1 this o0) by (apply live_store_eq; apply H).
    specialize (Hr Hc). unfold hook_ready in Hr.
    destruct (vptr o) eqn:Hv.
    + rewrite (bind_Ok _ _ _ _ _ (unmanage_default _ _ _ Hl Hv)).
      eexists _, (with_destroyed o0). split; [reflexivity |].
      split; [apply lookup_insert_eq |].
      repeat split; try done.
      intros q Hq. simpl. rewrite !lookup_insert_ne; done.
    + destruct Hr as [L HL].
      rewrite (bind_Ok _ _ _ _ _ (unmanage_node s1 this o0 L Hl Hv eq_refl HL)).
      eexists _, (with_u (anchor_ L) o0). split; [reflexivity |].
      split; [apply lookup_insert_eq |].
      repeat split; try done.
      intros q Hq. simpl. rewrite !lookup_insert_ne; done.
  - rewrite (decRef_live_not_last _ _ _ H Hc).
    eexists _, _. split; [reflexivity |].
    split; [apply lookup_insert_eq |].
    repeat split; try done.
    intros q Hq. simpl. rewrite lookup_insert_ne; done.
Qed.

(** ** Sequences of [incRef] and [decRef] on one object *)

Lemma drives_to_zero_cons c op rest :
  drives_to_zero c (op :: rest) ->
  0 < c /\
  (rest = [] -> wrap_int (c + refop_delta op) = 0) /\
  (rest <> [] -> drives_to_zero (wrap_int (c + refop_delta op)) rest).
Proof.
  intros [Hpre Hend]. split; [| split].
  - apply (Hpre 0%nat). simpl. lia.
  - intros ->. exact Hend.
  - intros Hne. split; [| exact Hend].
    intros n Hn. apply (Hpre (S n)). simpl. lia.
Qed.

Lemma wrap_int_step_zero c op :
  0 < c -> in_int_range c -> wrap_int (c + refop_delta op) = 0 ->
  op = DecRef /\ c = 1.
Proof.
  unfold in_int_range, INT_MAX. intros Hpos Hr Hz.
  destruct op; simpl in Hz.
  - exfalso. destruct (decide (c = 2 ^ 31 - 1)) as [-> | Hne].
    + vm_compute in Hz. discriminate.
    + rewrite wrap_int_id in Hz; [lia | unfold in_int_range, INT_MAX; lia].
  - split; [reflexivity |].
    rewrite wrap_int_id in Hz; [lia | unfold in_int_range, INT_MAX; lia].
Qed.

Lemma do_refops_to_zero ops : forall s this o,
  live s this o -> in_int_range (refcnt_ o) -> 0 < refcnt_ o ->
  hook_ready s o ->
  drives_to_zero (refcnt_ o) ops ->
  exists s' o',
    do_refops this ops s = Ok tt s' /\
    objs s' !! this = Some o' /\ refcnt_ o' = 0 /\
    unmanaged s' = unmanaged s ++ [this].
Proof.
  induction ops as [| op rest IH]; intros s this o Hl Hr Hpos Hh Hd.
  - destruct Hd as [_ Hend]. simpl in Hend. lia.
  - apply drives_to_zero_cons in Hd. destruct Hd as (_ & Hlast & Hmore).
    destruct rest as [| op2 rest].
    + destruct (wrap_int_step_zero _ _ Hpos Hr (Hlast eq_refl)) as [-> Hc].
      destruct (decRef_effect s this o Hl (fun _ => Hh))
        as (s' & o' & Hrun & Hlk & Hcnt & _ & _ & _ & Hlog & _).
      exists s', o'. simpl.
      rewrite (bind_Ok _ _ _ _ _ Hrun).
      repeat split; [exact Hlk | rewrite Hcnt, Hc; reflexivity | exact (Hlog Hc)].
    + specialize (Hmore ltac:(discriminate)).
      set (c' := wrap_int (refcnt_ o + refop_delta op)) in *.
      assert (Hpos' : 0 < c').
      { apply drives_to_zero_cons in Hmore. tauto. }
      set (o1 := with_refcnt c' o).
      set (s1 := set_objs <[this := o1]> s).
      assert (Hstep : exists v, do_refop this op s = Ok v s1).
      { destruct op; simpl.
        - eexists. apply (incRef_live _ _ _ Hl).
        - assert (Hne : refcnt_ o <> 1).
          { intros E. subst c'. rewrite E in Hpos'. vm_compute in Hpos'. discriminate. }
          eexists. apply (decRef_live_not_last _ _ _ Hl Hne). }
      destruct Hstep as [v Hstep].
      assert (Hl1 : live s1 this o1) by (apply live_store_eq; apply Hl).
      destruct (IH s1 this o1 Hl1 (wrap_int_range _) Hpos' Hh Hmore)
        as (s' & o' & Hrun & Hlk & Hcnt & Hlog).
      exists s', o'.
      change (do_refops this (op :: op2 :: rest) s)
        with (bind (do_refop this op) (fun _ => do_refops this (op2 :: rest)) s).
      rewrite (bind_Ok _ _ _ _ _ Hstep).
      repeat split; assumption.
Qed.

(** C1.  [decRef] on a live object returns the value the counter had,
    leaves the counter one lower, and the release hook [unmanage] runs in
    that call exactly when the value read was 1; it does not run
    otherwise.  Over every sequence of [incRef] and [decRef] calls that
    takes the counter from a positive value back to 0 (reaching 0 with its
    last call), the hook runs exactly once, on this object.  The calls of
    concurrent threads are atomic read-modify-write steps, so a concurrent
    execution is one such sequence.  ([hook_ready] asks of a pool node that
    its owner word names a list, so that its hook returns.) *)
Theorem decRef_returns_prior_and_fires_hook_once :
  (forall s this o,
     live s this o -> (refcnt_ o = 1 -> hook_ready s o) ->
     decRef_returns s this (refcnt_ o)) /\
  (forall s this o ops,
     live s this o -> in_int_range (refcnt_ o) -> 0 < refcnt_ o ->
     hook_ready s o ->
     drives_to_zero (refcnt_ o) ops ->
     hook_runs_once s this ops).
Proof.
  split.
  - intros s this o Hl Hh.
    destruct (decRef_effect s this o Hl Hh)
      as (s' & o' & Hrun & Hlk & Hcnt & _ & _ & _ & Hlog & Hno).
    exists s', o'. repeat split; try assumption.
    intros Hne. apply (Hno Hne).
  - intros s this o ops. apply do_refops_to_zero.
Qed.

Lemma decRef_returns_prior_and_fires_hook_once_witness :
  decRef_returns sole_owner 10 1 /\
  hook_runs_once sole_owner 10 [IncRef; DecRef; IncRef; DecRef; DecRef].
Proof.
  split.
  - apply (proj1 decRef_returns_prior_and_fires_hook_once sole_owner 10 (plain_object 1)).
    + split; reflexivity.
    + intros _. exact I.
  - apply (proj2 decRef_returns_prior_and_fires_hook_once sole_owner 10 (plain_object 1)).
    + split; reflexivity.
    + vm_compute. split; discriminate.
    + reflexivity.
    + exact I.
    + split; [| reflexivity].
      intros n Hn. simpl in Hn.
      destruct n as [| [| [| [| [| n]]]]]; [reflexivity .. | lia].
Defined.

(** ** Handles: stepping lemmas *)

Lemma bind_set_p_ {B} h p (k : unit -> M B) s :
  bind (Shp.set_p_ h p) k s = k tt (set_shps <[h := p]> s).
Proof. reflexivity. Qed.

Lemma get_Ok s h p : shps s !! h = Some p -> Shp.get h s = Ok p s.
Proof. unfold Shp.get. intros ->. reflexivity. Qed.

Lemma when_ptr_null m : when_ptr nullptr m = ret tt.
Proof. reflexivity. Qed.

Lemma when_ptr_nonnull p m : p <> nullptr -> when_ptr p m = m.
Proof.
  intros H. unfold when_ptr.
  destruct (Z.eqb_spec p nullptr); [contradiction | reflexivity].
Qed.

Lemma set_shps_id s h p : shps s !! h = Some p -> set_shps <[h := p]> s = s.
Proof.
  intros H. destruct s as [ob li sh un]. unfold set_shps. simpl in *.
  rewrite (insert_id sh h p H). reflexivity.
Qed.

Lemma set_objs_id s p o : objs s !! p = Some o -> set_objs <[p := o]> s = s.
Proof.
  intros H. destruct s as [ob li sh un]. unfold set_objs. simpl in *.
  rewrite (insert_id ob p o H). reflexivity.
Qed.

Lemma set_objs_twice s p o o' :
  set_objs <[p := o']> (set_objs <[p := o]> s) = set_objs <[p := o']> s.
Proof. unfold set_objs. simpl. rewrite insert_insert_eq. reflexivity. Qed.

Lemma with_refcnt_twice c c' o : with_refcnt c' (with_refcnt c o) = with_refcnt c' o.
Proof. reflexivity. Qed.

Lemma with_refcnt_same o : with_refcnt (refcnt_ o) o = o.
Proof. destruct o. reflexivity. Qed.

Lemma wrap_int_inc_dec c :
  in_int_range c -> wrap_int (wrap_int (c + 1) - 1) = c.
Proof.
  unfold in_int_range, INT_MAX. intros H.
  destruct (decide (c = 2 ^ 31 - 1)) as [-> | Hne]; [reflexivity |].
  rewrite (wrap_int_id (c + 1)) by (unfold in_int_range, INT_MAX; lia).
  replace (c + 1 - 1) with c by lia.
  apply wrap_int_id. unfold in_int_range, INT_MAX. lia.
Qed.

Lemma wrap_int_dec_inc c :
  in_int_range c -> wrap_int (wrap_int (c - 1) + 1) = c.
Proof.
  unfold in_int_range, INT_MAX. intros H.
  destruct (decide (c = - 2 ^ 31)) as [-> | Hne]; [reflexivity |].
  rewrite (wrap_int_id (c - 1)) by (unfold in_int_range, INT_MAX; lia).
  replace (c - 1 + 1) with c by lia.
  apply wrap_int_id. unfold in_int_range, INT_MAX. lia.
Qed.

Lemma wrap_int_inc_not_one c : in_int_range c -> c <> 0 -> wrap_int (c + 1) <> 1.
Proof.
  unfold in_int_range, INT_MAX. intros H Hne.
  destruct (decide (c = 2 ^ 31 - 1)) as [-> | Hm]; [discriminate |].
  rewrite wrap_int_id by (unfold in_int_range, INT_MAX; lia). lia.
Qed.

(** Acquiring a share and then releasing one, on an object that is already
    referenced, restores the state: no intermediate value of the counter is
    the 1 that [decRef] reacts to. *)
Lemma incRef_then_decRef s p o :
  live s p o -> in_int_range (refcnt_ o) -> refcnt_ o <> 0 ->
  (do (do incRef p then ret tt) then do decRef p then ret tt) s = Ok tt s.
Proof.
  intros Hl Hr Hne.
  set (o1 := with_refcnt (wrap_int (refcnt_ o + 1)) o).
  assert (Hl1 : live (set_objs <[p := o1]> s) p o1) by (apply live_store_eq; apply Hl).
  unfold bind at 1. unfold bind at 1. rewrite (incRef_live _ _ _ Hl). fold o1.
  unfold ret at 1.
  rewrite (bind_Ok _ _ _ _ _
             (decRef_live_not_last _ _ _ Hl1 (wrap_int_inc_not_one _ Hr Hne))).
  unfold ret. f_equal. rewrite set_objs_twice. subst o1.
  rewrite with_refcnt_twice. simpl. rewrite (wrap_int_inc_dec _ Hr).
  rewrite with_refcnt_same. apply set_objs_id, Hl.
Qed.

(** Releasing a share and then acquiring one restores the state when the
    counter was not 1. *)
Lemma decRef_then_incRef s p o :
  live s p o -> in_int_range (refcnt_ o) -> refcnt_ o <> 1 ->
  (do (do decRef p then ret tt) then do incRef p then ret tt) s = Ok tt s.
Proof.
  intros Hl Hr Hne.
  set (o1 := with_refcnt (wrap_int (refcnt_ o - 1)) o).
  assert (Hl1 : live (set_objs <[p := o1]> s) p o1) by (apply live_store_eq; apply Hl).
  unfold bind at 1. unfold bind at 1.
  rewrite (decRef_live_not_last _ _ _ Hl Hne). fold o1.
  unfold ret at 1.
  rewrite (bind_Ok _ _ _ _ _ (incRef_live _ _ _ Hl1)).
  unfold ret. f_equal. rewrite set_objs_twice. subst o1.
  rewrite with_refcnt_twice. simpl. rewrite (wrap_int_dec_inc _ Hr).
  rewrite with_refcnt_same. apply set_objs_id, Hl.
Qed.

(** The increment-first copy assignment (lines 144-158) between two
    handles on one object, which may be one and the same handle, does
    nothing at all: same pointers, same counter, no hook. *)
Lemma Shp_assign_copy_same_object s h1 h2 p :
  shps s !! h1 = Some p -> shps s !! h2 = Some p ->
  (p <> nullptr ->
   exists o, live s p o /\ in_int_range (refcnt_ o) /\ 1 <= refcnt_ o) ->
  Shp.assign_copy_tmpl h1 h2 s = Ok tt s.
Proof.
  intros Hh1 Hh2 Hp. unfold Shp.assign_copy_tmpl.
  rewrite (bind_Ok _ _ _ _ _ (get_Ok _ _ _ Hh1)).
  rewrite (bind_Ok _ _ _ _ _ (get_Ok _ _ _ Hh2)).
  rewrite bind_set_p_, (set_shps_id _ _ _ Hh1).
  destruct (decide (p = nullptr)) as [-> | Hnz].
  - reflexivity.
  - destruct (Hp Hnz) as (o & Hl & Hr & Hc).
    rewrite !(when_ptr_nonnull _ _ Hnz).
    apply (incRef_then_decRef s p o Hl Hr). lia.
Qed.

(** The private move constructor (lines 110-118) does hand the share over:
    the counter is not touched and the source is cleared. *)
Lemma Shp_ctor_move_tag_transfers s this rhs p :
  shps s !! rhs = Some p ->
  Shp.ctor_move_tag this rhs s
  = Ok tt (set_shps <[rhs := nullptr]> (set_shps <[this := p]> s)).
Proof.
  intros Hh. unfold Shp.ctor_move_tag.
  rewrite (bind_Ok _ _ _ _ _ (get_Ok _ _ _ Hh)). reflexivity.
Qed.

(** The public move constructors (lines 133-142) and the move assignment
    [operator=(Shp &&)] (lines 182-185) pass on the name [rhs] and so reach
    the copying overloads: whatever the category of the initialiser, the
    new handle takes a share of its own and the source keeps its pointer. *)
Lemma Shp_construct_copies cat s this rhs p o :
  shps s !! rhs = Some p -> p <> nullptr -> live s p o ->
  Shp.construct cat this rhs s
  = Ok tt (set_objs <[p := with_refcnt (wrap_int (refcnt_ o + 1)) o]>
             (set_shps <[this := p]> s)).
Proof.
  intros Hh Hnz Hl.
  assert (E : Shp.construct cat this rhs = Shp.ctor_copy_tag this rhs)
    by (destruct cat; reflexivity).
  rewrite E. unfold Shp.ctor_copy_tag.
  rewrite (bind_Ok _ _ _ _ _ (get_Ok _ _ _ Hh)).
  rewrite bind_set_p_, (when_ptr_nonnull _ _ Hnz).
  assert (Hl' : live (set_shps <[this := p]> s) p o) by exact Hl.
  rewrite (bind_Ok _ _ _ _ _ (incRef_live _ _ _ Hl')). reflexivity.
Qed.

(** C2.  The claim holds of the increment-first operator
    ([Shp_assign_copy_same_object]) and fails for the decrement-first text
    of [operator=(const Shp<U> &)] (lines 412-428) when [h] is the only
    owner: the release of the old share reads the counter as 1, so the hook
    runs.  With the default hook the object is destroyed and the
    assignment goes on to increment a destroyed object; with the hook of a
    pool node the assignment completes, the hook has run, and the node is
    the head of its list while [h] still points to it. *)
Theorem ShpDecFirst_self_assign_fires_hook :
  decRef 10 sole_owner
  = Ok 1 (mkState {[ 10 := mkObject 0 0 ShpBase_vtbl true ]} ∅ {[ 100 := 10 ]} [10]) /\
  ShpDecFirst.assign lvalue true 100 100 sole_owner = Undefined /\
  ShpDecFirst.assign lvalue true 100 100 sole_owner_of_node
  = Ok tt (mkState {[ 10 := node_object 1 0 ]} {[ 200 := mkFreeListBase 10 1 ]}
             {[ 100 := 10 ]} [10]).
Proof. repeat split; vm_compute; reflexivity. Qed.

(** C3.  Move construction and same-type move assignment do not transfer
    the share: from a handle (at 100) on an object with counter 1,
    [Shp<T> g(std::move(h))] leaves the counter at 2 and [h] still pointing
    to the object, and so does [g = std::move(h)] for an empty [g].  Only
    the private constructor with the tag, which the public ones do not
    reach, moves. *)
Theorem Shp_move_takes_a_new_share :
  Shp.construct xvalue 101 100 sole_owner
  = Ok tt (mkState {[ 10 := plain_object 2 ]} ∅ {[ 100 := 10; 101 := 10 ]} []) /\
  Shp.assign xvalue true 101 100 (set_shps <[101 := nullptr]> sole_owner)
  = Ok tt (mkState {[ 10 := plain_object 2 ]} ∅ {[ 100 := 10; 101 := 10 ]} []) /\
  Shp.ctor_move_tag 101 100 sole_owner
  = Ok tt (mkState {[ 10 := plain_object 1 ]} ∅ {[ 100 := nullptr; 101 := 10 ]} []).
Proof. repeat split; vm_compute; reflexivity. Qed.

(** ** Move assignment between two handles on one object *)

(** C4, as stated, fails: with the handles at 100 and 101 sharing the
    object at 10 (counter 2), [h1 = std::move(h2)] keeps the counter at 2
    and leaves [h2] pointing to the object, through the template of lines
    165-180 as through [operator=(Shp &&)] of either text. *)
Lemma move_assign_same_object_counterexample :
  ~ moved_keeping_count (Shp.assign xvalue false) two_owners 100 101 10 2 /\
  ~ moved_keeping_count (Shp.assign xvalue true) two_owners 100 101 10 2 /\
  ~ moved_keeping_count (ShpDecFirst.assign xvalue true) two_owners 100 101 10 2.
Proof.
  repeat split; intros (s' & o' & Hrun & Hlk & Hcnt & Hh2);
    vm_compute in Hrun; injection Hrun as <-;
    vm_compute in Hh2; discriminate Hh2.
Qed.

(** C4, amended.  For two handles [h1] and [h2] on one live object, the
    move assignment [h1 = std::move(h2)] done by the template
    [operator=(Shp<U> &&)] of lines 165-180 is a no-op, as its comment
    says: the call returns in the very state it started in, so the
    object's counter is unchanged, the hook has not run, [h1] is still on
    the object, and [h2] is not emptied but still points to the object. *)
Theorem move_assign_same_object s h1 h2 p o :
  shps s !! h1 = Some p -> shps s !! h2 = Some p -> p <> nullptr ->
  live s p o ->
  exists s',
    Shp.assign xvalue false h1 h2 s = Ok tt s' /\
    s' = s /\
    objs s' !! p = Some o /\
    unmanaged s' = unmanaged s /\
    shps s' !! h1 = Some p /\ shps s' !! h2 = Some p.
Proof.
  intros Hh1 Hh2 Hnz Hl.
  exists s. split.
  - simpl. unfold Shp.assign_move_tmpl.
    rewrite (bind_Ok _ _ _ _ _ (get_Ok _ _ _ Hh1)).
    rewrite (bind_Ok _ _ _ _ _ (get_Ok _ _ _ Hh2)).
    rewrite bind_set_p_, (set_shps_id _ _ _ Hh1), Z.eqb_refl. reflexivity.
  - split; [reflexivity |]. split; [apply Hl |].
    split; [reflexivity |]. split; assumption.
Qed.

Lemma move_assign_same_object_witness :
  exists s',
    Shp.assign xvalue false 100 101 two_owners = Ok tt s' /\
    s' = two_owners /\
    objs s' !! 10 = Some (plain_object 2) /\
    unmanaged s' = unmanaged two_owners /\
    shps s' !! 100 = Some 10 /\ shps s' !! 101 = Some 10.
Proof.
  apply (move_assign_same_object two_owners 100 101 10 (plain_object 2)).
  - reflexivity.
  - reflexivity.
  - discriminate.
  - split; reflexivity.
Defined.

(** ** Copy assignment over the last reference to another object *)

Lemma lookup_retargeted (m : gmap Z Z) h1 h2 B :
  m !! h2 = Some B -> <[h1 := B]> m !! h2 = Some B.
Proof.
  intros H. destruct (decide (h1 = h2)) as [-> | Hne].
  - apply lookup_insert_eq.
  - rewrite lookup_insert_ne; done.
Qed.

Lemma wrap_int_inc_small n : in_int_range n -> n < INT_MAX -> wrap_int (n + 1) = n + 1.
Proof.
  unfold in_int_range, INT_MAX. intros H1 H2.
  apply wrap_int_id. unfold in_int_range, INT_MAX. lia.
Qed.

Lemma Shp_assign_copy_releases s h1 h2 A B oA oB :
  shps s !! h1 = Some A -> shps s !! h2 = Some B ->
  A <> B -> A <> nullptr -> B <> nullptr ->
  live s A oA -> live s B oB -> refcnt_ oA = 1 -> hook_ready s oA ->
  released_and_retargeted Shp.assign_copy_tmpl s h1 h2 A B (refcnt_ oB).
Proof.
  intros Hh1 Hh2 HAB HA HB HlA HlB Hc Hh.
  set (oB1 := with_refcnt (wrap_int (refcnt_ oB + 1)) oB).
  set (s1 := set_shps <[h1 := B]> s).
  set (s2 := set_objs <[B := oB1]> s1).
  assert (HlB1 : live s1 B oB) by exact HlB.
  assert (HlA2 : live s2 A oA).
  { apply live_store_ne; [congruence | exact HlA]. }
  destruct (decRef_effect s2 A oA HlA2 (fun _ => Hh))
    as (s' & oA' & Hrun & Hlk & Hcnt & _ & Hsh & Hfr & Hlog & _).
  exists s', oA', oB1.
  split.
  { unfold Shp.assign_copy_tmpl.
    rewrite (bind_Ok _ _ _ _ _ (get_Ok _ _ _ Hh1)).
    rewrite (bind_Ok _ _ _ _ _ (get_Ok _ _ _ Hh2)).
    rewrite bind_set_p_. fold s1.
    rewrite (when_ptr_nonnull _ _ HA), (when_ptr_nonnull _ _ HB).
    unfold bind at 1. unfold bind at 1.
    rewrite (incRef_live _ _ _ HlB1). fold oB1. fold s2. unfold ret at 1.
    rewrite (bind_Ok _ _ _ _ _ Hrun). reflexivity. }
  split; [exact Hlk |].
  split; [rewrite Hcnt, Hc; reflexivity |].
  split; [exact (Hlog Hc) |].
  split; [rewrite (Hfr B) by congruence; apply lookup_insert_eq |].
  split; [apply HlB |].
  split; [reflexivity |].
  split; [intros; apply wrap_int_inc_small; assumption |].
  rewrite Hsh. split; [apply lookup_insert_eq | apply lookup_retargeted, Hh2].
Qed.

Lemma ShpDecFirst_assign_copy_releases s h1 h2 A B oA oB :
  shps s !! h1 = Some A -> shps s !! h2 = Some B ->
  A <> B -> A <> nullptr -> B <> nullptr ->
  live s A oA -> live s B oB -> refcnt_ oA = 1 -> hook_ready s oA ->
  released_and_retargeted ShpDecFirst.assign_copy_tmpl s h1 h2 A B (refcnt_ oB).
Proof.
  intros Hh1 Hh2 HAB HA HB HlA HlB Hc Hh.
  destruct (decRef_effect s A oA HlA (fun _ => Hh))
    as (s1 & oA' & Hrun & Hlk & Hcnt & _ & Hsh & Hfr & Hlog & _).
  set (oB1 := with_refcnt (wrap_int (refcnt_ oB + 1)) oB).
  set (s2 := set_shps <[h1 := B]> s1).
  assert (Hh2' : shps s1 !! h2 = Some B) by (rewrite Hsh; exact Hh2).
  assert (HlB2 : live s2 B oB).
  { split; [| apply HlB]. simpl. rewrite (Hfr B) by congruence. apply HlB. }
  exists (set_objs <[B := oB1]> s2), oA', oB1.
  split.
  { unfold ShpDecFirst.assign_copy_tmpl.
    rewrite (bind_Ok _ _ _ _ _ (get_Ok _ _ _ Hh1)).
    rewrite (when_ptr_nonnull _ _ HA).
    unfold bind at 1. unfold bind at 1. rewrite Hrun. unfold ret at 1.
    rewrite (bind_Ok _ _ _ _ _ (get_Ok _ _ _ Hh2')).
    rewrite bind_set_p_. fold s2.
    rewrite (when_ptr_nonnull _ _ HB).
    rewrite (bind_Ok _ _ _ _ _ (incRef_live _ _ _ HlB2)). reflexivity. }
  split; [simpl; rewrite lookup_insert_ne by congruence; exact Hlk |].
  split; [rewrite Hcnt, Hc; reflexivity |].
  split; [exact (Hlog Hc) |].
  split; [apply lookup_insert_eq |].
  split; [apply HlB |].
  split; [reflexivity |].
  split; [intros; apply wrap_int_inc_small; assumption |].
  simpl. rewrite Hsh. split; [apply lookup_insert_eq | apply lookup_retargeted, Hh2].
Qed.

(** C5.  If [h1] holds the only share of [A] (counter 1) and [h2] points
    to another object [B], then [h1 = h2] leaves [A]'s counter at 0 with
    [A]'s hook run exactly once, [B]'s counter one higher, and [h1] on [B].
    This holds of both texts of the operator (increment first, lines
    144-158; decrement first, lines 412-428), for a source of the same or
    of another element type.  ([hook_ready] asks of a pool node [A] that
    its owner word names a list.) *)
Theorem copy_assign_releases_sole_owner s h1 h2 A B oA oB :
  shps s !! h1 = Some A -> shps s !! h2 = Some B ->
  A <> B -> A <> nullptr -> B <> nullptr ->
  live s A oA -> live s B oB -> refcnt_ oA = 1 -> hook_ready s oA ->
  forall same_type,
    released_and_retargeted (Shp.assign lvalue same_type) s h1 h2 A B (refcnt_ oB) /\
    released_and_retargeted (ShpDecFirst.assign lvalue same_type) s h1 h2 A B (refcnt_ oB).
Proof.
  intros Hh1 Hh2 HAB HA HB HlA HlB Hc Hh same_type.
  pose proof (Shp_assign_copy_releases s h1 h2 A B oA oB
                Hh1 Hh2 HAB HA HB HlA HlB Hc Hh) as H1.
  pose proof (ShpDecFirst_assign_copy_releases s h1 h2 A B oA oB
                Hh1 Hh2 HAB HA HB HlA HlB Hc Hh) as H2.
  destruct same_type; split; assumption.
Qed.

Lemma copy_assign_releases_sole_owner_witness :
  released_and_retargeted (Shp.assign lvalue true) owner_and_other 100 101 10 20 3 /\
  released_and_retargeted (ShpDecFirst.assign lvalue true) owner_and_other 100 101 10 20 3.
Proof.
  apply (copy_assign_releases_sole_owner owner_and_other 100 101 10 20
           (plain_object 1) (plain_object 3)).
  - reflexivity.
  - reflexivity.
  - discriminate.
  - discriminate.
  - discriminate.
  - split; reflexivity.
  - split; reflexivity.
  - reflexivity.
  - exact I.
Defined.

(** ** The free list *)

Lemma deref_list_Ok s this L :
  lists s !! this = Some L -> deref_list this s = Ok L s.
Proof. unfold deref_list. intros ->. reflexivity. Qed.

Lemma set_anchor_Ok s this L p :
  lists s !! this = Some L ->
  set_anchor this p s = Ok tt (set_lists <[this := mkFreeListBase p (avail_ L)]> s).
Proof.
  intros HL. unfold set_anchor.
  rewrite (bind_Ok _ _ _ _ _ (deref_list_Ok _ _ _ HL)). reflexivity.
Qed.

Lemma avail_fetch_add_Ok s this L d :
  lists s !! this = Some L ->
  avail_fetch_add this d s
  = Ok (avail_ L)
       (set_lists <[this := mkFreeListBase (anchor_ L) (wrap_unsigned (avail_ L + d))]> s).
Proof.
  intros HL. unfold avail_fetch_add.
  rewrite (bind_Ok _ _ _ _ _ (deref_list_Ok _ _ _ HL)). reflexivity.
Qed.

Lemma getRaw_empty s this L :
  lists s !! this = Some L -> anchor_ L = nullptr -> getRaw this s = Ok nullptr s.
Proof.
  intros HL Ha. unfold getRaw.
  rewrite (bind_Ok _ _ _ _ _ (deref_list_Ok _ _ _ HL)), Ha. reflexivity.
Qed.

(** [getRaw] on a list whose head is a live node with counter 0. *)
Lemma getRaw_head s this L o :
  lists s !! this = Some L -> anchor_ L <> nullptr ->
  live s (anchor_ L) o -> refcnt_ o = 0 ->
  getRaw this s
  = Ok (anchor_ L)
       (set_lists <[this := mkFreeListBase (u_ o) (wrap_unsigned (avail_ L - 1))]>
          (set_objs <[anchor_ L := with_u this o]> s)).
Proof.
  intros HL Ha Hl Hc. unfold getRaw.
  rewrite (bind_Ok _ _ _ _ _ (deref_list_Ok _ _ _ HL)).
  rewrite (when_ptr_nonnull _ _ Ha).
  set (s1 := set_lists <[this := mkFreeListBase (u_ o) (avail_ L)]> s).
  set (s2 := set_objs <[anchor_ L := with_u this o]> s1).
  assert (Hl1 : live s1 (anchor_ L) o) by exact Hl.
  assert (HL2 : lists s2 !! this = Some (mkFreeListBase (u_ o) (avail_ L)))
    by apply lookup_insert_eq.
  unfold bind at 1. unfold bind at 1.
  rewrite (next_live _ _ _ Hl Hc).
  unfold bind at 1. rewrite (set_anchor_Ok _ _ _ _ HL). fold s1.
  unfold bind at 1. rewrite (setList_live _ _ _ _ Hl1 Hc). fold s2.
  unfold bind at 1. rewrite (avail_fetch_add_Ok _ _ _ _ HL2).
  unfold ret. f_equal.
  unfold s2, s1, set_lists, set_objs. simpl. rewrite insert_insert_eq. reflexivity.
Qed.

Lemma ctor_ptr_live s h p o :
  p <> nullptr -> live s p o ->
  Shp.ctor_ptr h p s
  = Ok tt (set_objs <[p := with_refcnt (wrap_int (refcnt_ o + 1)) o]>
             (set_shps <[h := p]> s)).
Proof.
  intros Hnz Hl. unfold Shp.ctor_ptr.
  rewrite bind_set_p_, (when_ptr_nonnull _ _ Hnz).
  assert (Hl' : live (set_shps <[h := p]> s) p o) by exact Hl.
  rewrite (bind_Ok _ _ _ _ _ (incRef_live _ _ _ Hl')). reflexivity.
Qed.

(** C6, as stated, fails: after [put] of the node at 10 into the empty list
    at 200 the owner accessor of the node returns the former head
    ([nullptr]), not the list. *)
Lemma put_records_owner_counterexample :
  ~ put_links_and_records_owner empty_list_and_node 200 10 nullptr.
Proof.
  intros (s' & L' & Hrun & _ & _ & _ & Hown).
  vm_compute in Hrun. injection Hrun as <-.
  vm_compute in Hown. discriminate Hown.
Qed.

(** C6, amended.  [put(p)] of a live node with counter 0 returns, makes [p]
    the head of the list, and links [p] ahead of the former head: [p]'s
    link word holds the former head.  That word is also what the owner
    accessor reads, so the list is not recorded as owner by [put]; nothing
    else of the node changes, and the advisory counter goes up by one. *)
Theorem put_links_ahead_of_head s this L p o :
  lists s !! this = Some L -> live s p o -> refcnt_ o = 0 ->
  exists s',
    put this p s = Ok tt s' /\
    lists s' !! this = Some (mkFreeListBase p (wrap_unsigned (avail_ L + 1))) /\
    objs s' !! p = Some (with_u (anchor_ L) o) /\
    next p s' = Ok (anchor_ L) s' /\
    list_ p s' = Ok (anchor_ L) s'.
Proof.
  intros HL Hl Hc.
  eexists. split; [apply (put_live s this L p o HL Hl Hc) |].
  set (s' := set_lists _ _).
  assert (Hl' : live s' p (with_u (anchor_ L) o)).
  { split; [apply lookup_insert_eq | apply Hl]. }
  split; [apply lookup_insert_eq |].
  split; [apply lookup_insert_eq |].
  split; [apply (next_live _ _ _ Hl' Hc) | apply (list_live _ _ _ Hl' Hc)].
Qed.

Lemma put_links_ahead_of_head_witness :
  exists s',
    put 200 10 empty_list_and_node = Ok tt s' /\
    lists s' !! 200 = Some (mkFreeListBase 10 (wrap_unsigned (0 + 1))) /\
    objs s' !! 10 = Some (with_u nullptr (node_object 0 0)) /\
    next 10 s' = Ok nullptr s' /\
    list_ 10 s' = Ok nullptr s'.
Proof.
  apply (put_links_ahead_of_head empty_list_and_node 200
           (mkFreeListBase nullptr 0) 10 (node_object 0 0)).
  - reflexivity.
  - split; reflexivity.
  - reflexivity.
Defined.

(** C7.  For a list and a live node with counter 0, [put(node)] followed by
    [get<T>()] returns a handle on that same node and the node's counter
    has gone from 0 to 1.  [get<T>()] on a list whose chain is empty
    returns an empty handle and changes nothing else. *)
Theorem put_then_get_round_trip s this L :
  lists s !! this = Some L ->
  (forall p o result,
     p <> nullptr -> live s p o -> refcnt_ o = 0 ->
     round_trip s this p result L o) /\
  (forall result,
     anchor_ L = nullptr ->
     get this result s = Ok tt (set_shps <[result := nullptr]> s)).
Proof.
  intros HL. split.
  - intros p o result Hnz Hl Hc.
    set (L1 := mkFreeListBase p (wrap_unsigned (avail_ L + 1))).
    set (o1 := with_u (anchor_ L) o).
    set (s1 := set_lists <[this := L1]> (set_objs <[p := o1]> s)).
    assert (HL1 : lists s1 !! this = Some L1) by apply lookup_insert_eq.
    assert (Hl1 : live s1 (anchor_ L1) o1).
    { split; [apply lookup_insert_eq | apply Hl]. }
    pose proof (getRaw_head s1 this L1 o1 HL1 Hnz Hl1 Hc) as Hget.
    simpl in Hget.
    set (s2 := set_lists _ _) in Hget.
    assert (Hl2 : live s2 p (with_u this o1)).
    { split; [apply lookup_insert_eq | apply Hl]. }
    eexists. split.
    { rewrite (bind_Ok _ _ _ _ _ (put_live s this L p o HL Hl Hc)).
      fold L1 o1 s1. unfold get.
      rewrite (bind_Ok _ _ _ _ _ Hget).
      apply (ctor_ptr_live s2 result p _ Hnz Hl2). }
    split; [apply lookup_insert_eq |].
    split.
    { simpl. rewrite lookup_insert_eq. f_equal.
      unfold with_refcnt, with_u, o1. simpl. rewrite Hc. reflexivity. }
    split; [| reflexivity].
    simpl. rewrite lookup_insert_eq. reflexivity.
  - intros result Ha. unfold get.
    rewrite (bind_Ok _ _ _ _ _ (getRaw_empty s this L HL Ha)). reflexivity.
Qed.

Lemma put_then_get_round_trip_witness :
  round_trip empty_list_and_node 200 10 100 (mkFreeListBase nullptr 0) (node_object 0 0) /\
  get 200 100 empty_list_and_node
  = Ok tt (set_shps <[100 := nullptr]> empty_list_and_node).
Proof.
  pose proof (put_then_get_round_trip empty_list_and_node 200
                (mkFreeListBase nullptr 0) eq_refl) as [Hrt Hempty].
  split.
  - apply Hrt.
    + discriminate.
    + split; reflexivity.
    + reflexivity.
  - apply Hempty. reflexivity.
Defined.

(** C8.  On a live node whose counter is greater than 0 each of [next],
    [setNext], [list] and [setList] throws [std::bad_alloc] and leaves the
    state as it was; on a node whose counter is 0 the getters return the
    link word and the setters store their argument in it. *)
Theorem link_accessors_guarded s this o :
  live s this o ->
  (0 < refcnt_ o ->
   next this s = Throw_bad_alloc s /\
   (forall p, setNext this p s = Throw_bad_alloc s) /\
   list_ this s = Throw_bad_alloc s /\
   (forall p, setList this p s = Throw_bad_alloc s)) /\
  (refcnt_ o = 0 ->
   next this s = Ok (u_ o) s /\
   (forall p, setNext this p s = Ok tt (set_objs <[this := with_u p o]> s)) /\
   list_ this s = Ok (u_ o) s /\
   (forall p, setList this p s = Ok tt (set_objs <[this := with_u p o]> s))).
Proof.
  intros Hl. split.
  - intros Hc. apply (accessor_throws s this o Hl). lia.
  - intros Hc. repeat split; intros.
    + apply (next_live _ _ _ Hl Hc).
    + apply (setNext_live _ _ _ _ Hl Hc).
    + apply (list_live _ _ _ Hl Hc).
    + apply (setList_live _ _ _ _ Hl Hc).
Qed.

Lemma link_accessors_guarded_witness :
  (next 10 sole_owner_of_node = Throw_bad_alloc sole_owner_of_node /\
   (forall p, setNext 10 p sole_owner_of_node = Throw_bad_alloc sole_owner_of_node) /\
   list_ 10 sole_owner_of_node = Throw_bad_alloc sole_owner_of_node /\
   (forall p, setList 10 p sole_owner_of_node = Throw_bad_alloc sole_owner_of_node)) /\
  (next 10 empty_list_and_node = Ok 0 empty_list_and_node /\
   (forall p, setNext 10 p empty_list_and_node
              = Ok tt (set_objs <[10 := with_u p (node_object 0 0)]> empty_list_and_node)) /\
   list_ 10 empty_list_and_node = Ok 0 empty_list_and_node /\
   (forall p, setList 10 p empty_list_and_node
              = Ok tt (set_objs <[10 := with_u p (node_object 0 0)]> empty_list_and_node))).
Proof.
  split.
  - apply (link_accessors_guarded sole_owner_of_node 10 (node_object 1 200)).
    + split; reflexivity.
    + reflexivity.
  - apply (link_accessors_guarded empty_list_and_node 10 (node_object 0 0)).
    + split; reflexivity.
    + reflexivity.
Defined.

(** ** Check-out and the way back *)

Lemma dtor_Ok s h p s' v :
  shps s !! h = Some p -> p <> nullptr -> decRef p s = Ok v s' ->
  Shp.dtor h s = Ok tt (set_shps (delete h) s').
Proof.
  intros Hh Hnz Hdec. unfold Shp.dtor.
  rewrite (bind_Ok _ _ _ _ _ (get_Ok _ _ _ Hh)).
  rewrite (when_ptr_nonnull _ _ Hnz).
  unfold bind. rewrite Hdec. reflexivity.
Qed.

(** C9.  A [getRaw] that finds a head [rv] (live, counter 0) writes the
    list into [rv]'s owner word while the counter is still 0 and returns
    [rv].  When the node is then wrapped by [get<T>()] and the handle
    ends, the hook hands the node to the list it was checked out of,
    whatever list it had been put into first: a node put into the list at
    200, taken out and put into the list at 300 goes back to 300. *)
Theorem getRaw_records_owner_for_release :
  (forall s this L o,
     lists s !! this = Some L -> anchor_ L <> nullptr ->
     live s (anchor_ L) o -> refcnt_ o = 0 ->
     checked_out_raw s this (anchor_ L) o /\
     (vptr o = FreeListNode_vtbl -> forall result,
        returns_to_list s this (anchor_ L) result)) /\
  (moved_between_lists two_lists = Ok tt in_second_list /\
   returns_to_list in_second_list 300 10 100).
Proof.
  assert (Hgen : forall s this L o result,
            lists s !! this = Some L -> anchor_ L <> nullptr ->
            live s (anchor_ L) o -> refcnt_ o = 0 -> vptr o = FreeListNode_vtbl ->
            returns_to_list s this (anchor_ L) result).
  { clear. intros s this L o result HL Ha Hl Hc Hv.
    set (rv := anchor_ L) in *.
    pose proof (getRaw_head s this L o HL Ha Hl Hc) as Hget. fold rv in Hget.
    set (L1 := mkFreeListBase (u_ o) (wrap_unsigned (avail_ L - 1))) in Hget.
    set (s1 := set_lists _ _) in Hget.
    assert (Hl1 : live s1 rv (with_u this o)).
    { split; [apply lookup_insert_eq | apply Hl]. }
    pose proof (ctor_ptr_live s1 result rv _ Ha Hl1) as Hctor.
    set (o2 := with_refcnt _ _) in Hctor.
    set (s2 := set_objs _ _) in Hctor.
    assert (Hl2 : live s2 rv o2).
    { split; [apply lookup_insert_eq | apply Hl]. }
    assert (Hc2 : refcnt_ o2 = 1).
    { unfold o2. simpl. rewrite Hc. reflexivity. }
    assert (Hh2 : hook_ready s2 o2).
    { unfold hook_ready. simpl. rewrite Hv. exists L1. apply lookup_insert_eq. }
    destruct (decRef_effect s2 rv o2 Hl2 (fun _ => Hh2))
      as (s3 & o3 & Hdec & Hlk & Hcnt & _ & Hsh & _ & Hlog & _).
    assert (Hr2 : shps s2 !! result = Some rv) by apply lookup_insert_eq.
    (* the exact state after the hook, to read the list off it *)
    assert (Hs3 : lists s3 !! this
                  = Some (mkFreeListBase rv (wrap_unsigned (avail_ L1 + 1)))
                  /\ destroyed o3 = false).
    { rewrite (decRef_live_last _ _ _ Hl2 Hc2) in Hdec.
      set (o0 := with_refcnt 0 o2) in Hdec.
      set (s0 := set_objs <[rv := o0]> s2) in Hdec.
      assert (Hl0 : live s0 rv o0) by (split; [apply lookup_insert_eq | apply Hl]).
      assert (HL0 : lists s0 !! u_ o0 = Some L1) by apply lookup_insert_eq.
      rewrite (bind_Ok _ _ _ _ _ (unmanage_node s0 rv o0 L1 Hl0 Hv eq_refl HL0)) in Hdec.
      unfold ret in Hdec. injection Hdec as _ <-.
      split; [apply lookup_insert_eq |].
      simpl in Hlk. rewrite lookup_insert_eq in Hlk. injection Hlk as <-. apply Hl. }
    destruct Hs3 as [HL3 Hd3].
    exists (set_shps (delete result) s3),
      (mkFreeListBase rv (wrap_unsigned (avail_ L1 + 1))), o3.
    split.
    { unfold get. unfold bind at 1. unfold bind at 1.
      rewrite Hget. rewrite Hctor.
      apply (dtor_Ok s2 result rv s3 _ Hr2 Ha Hdec). }
    split; [exact (Hlog Hc2) |].
    split; [exact HL3 |].
    split; [reflexivity |].
    split; [exact Hlk |].
    split; [rewrite Hcnt, Hc2; reflexivity |].
    split; [exact Hd3 |].
    simpl. apply lookup_delete_eq. }
  split; [intros s this L o HL Ha Hl Hc; split | split].
  - pose proof (getRaw_head s this L o HL Ha Hl Hc) as Hget.
    set (s1 := set_lists _ _) in Hget.
    assert (Hl1 : live s1 (anchor_ L) (with_u this o)).
    { split; [apply lookup_insert_eq | apply Hl]. }
    exists s1, (mkFreeListBase (u_ o) (wrap_unsigned (avail_ L - 1))).
    split; [exact Hget |].
    split; [apply lookup_insert_eq |].
    split; [exact Hc |].
    split; [apply (list_live _ _ _ Hl1 Hc) |].
    split; [apply lookup_insert_eq | reflexivity].
  - intros Hv result. apply (Hgen s this L o result HL Ha Hl Hc Hv).
  - vm_compute. reflexivity.
  - apply (Hgen in_second_list 300 (mkFreeListBase 10 1) (node_object 0 nullptr) 100).
    + reflexivity.
    + discriminate.
    + split; reflexivity.
    + reflexivity.
    + reflexivity.
Qed.

Lemma getRaw_records_owner_for_release_witness :
  checked_out_raw in_second_list 300 10 (node_object 0 nullptr) /\
  (forall result, returns_to_list in_second_list 300 10 result).
Proof.
  destruct (proj1 getRaw_records_owner_for_release in_second_list 300
              (mkFreeListBase 10 1) (node_object 0 nullptr)) as [H1 H2].
  - reflexivity.
  - discriminate.
  - split; reflexivity.
  - reflexivity.
  - split; [exact H1 | exact (H2 eq_refl)].
Defined.

(** ** The advisory counter and the length of the chain *)

Lemma bind_Ok_inv {A B} (m : M A) (k : A -> M B) s b s' :
  bind m k s = Ok b s' -> exists a s1, m s = Ok a s1 /\ k a s1 = Ok b s'.
Proof.
  unfold bind. destruct (m s) as [a s1 | |]; [| discriminate ..].
  intros H. exists a, s1. split; [reflexivity | exact H].
Qed.

Lemma deref_inv p s o s' : deref p s = Ok o s' -> live s p o /\ s' = s.
Proof.
  unfold deref, live. destruct (objs s !! p) as [o0 |]; [| discriminate].
  destruct (destroyed o0) eqn:E; [discriminate |].
  intros [= <- <-]. repeat split. exact E.
Qed.

Lemma guarded_inv {A} (m : M A) p s a s' :
  (let* c := use_count p in if c =? 0 then m else throw_bad_alloc) s = Ok a s' ->
  exists o, live s p o /\ refcnt_ o = 0 /\ m s = Ok a s'.
Proof.
  intros H. apply bind_Ok_inv in H. destruct H as (c & s1 & Hc & H).
  unfold use_count in Hc. apply bind_Ok_inv in Hc.
  destruct Hc as (o & s2 & Hd & Hr). apply deref_inv in Hd. destruct Hd as [Hl ->].
  injection Hr as <- <-.
  destruct (Z.eqb_spec (refcnt_ o) 0) as [E | _]; [| discriminate].
  exists o. repeat split; assumption || apply Hl.
Qed.

Lemma next_inv p s v s' :
  next p s = Ok v s' -> exists o, live s p o /\ refcnt_ o = 0 /\ v = u_ o /\ s' = s.
Proof.
  intros H. apply guarded_inv in H. destruct H as (o & Hl & Hc & H).
  rewrite (bind_Ok _ _ _ _ _ (deref_live _ _ _ Hl)) in H. injection H as <- <-.
  exists o. repeat split; assumption || apply Hl.
Qed.

Lemma setNext_inv p q s s' :
  setNext p q s = Ok tt s' ->
  exists o, live s p o /\ refcnt_ o = 0 /\ s' = set_objs <[p := with_u q o]> s.
Proof.
  intros H. apply guarded_inv in H. destruct H as (o & Hl & Hc & H).
  rewrite (bind_Ok _ _ _ _ _ (deref_live _ _ _ Hl)) in H. injection H as <-.
  exists o. repeat split; assumption || apply Hl.
Qed.

(** A [put] that returns was given a live node with counter 0. *)
Lemma put_inv s this L p s' :
  lists s !! this = Some L -> put this p s = Ok tt s' ->
  exists o, live s p o /\ refcnt_ o = 0 /\
    s' = set_lists <[this := mkFreeListBase p (wrap_unsigned (avail_ L + 1))]>
           (set_objs <[p := with_u (anchor_ L) o]> s).
Proof.
  intros HL H. unfold put in H.
  rewrite (bind_Ok _ _ _ _ _ (deref_list_Ok _ _ _ HL)) in H.
  pose proof H as H0.
  apply bind_Ok_inv in H0. destruct H0 as ([] & s1 & Hset & _).
  apply setNext_inv in Hset. destruct Hset as (o & Hl & Hc & _).
  exists o. split; [exact Hl |]. split; [exact Hc |].
  pose proof (put_live s this L p o HL Hl Hc) as Hput.
  unfold put in Hput.
  rewrite (bind_Ok _ _ _ _ _ (deref_list_Ok _ _ _ HL)) in Hput.
  congruence.
Qed.

(** A [getRaw] that returns either found the chain empty or found a live
    head with counter 0. *)
Lemma getRaw_inv s this L rv s' :
  lists s !! this = Some L -> getRaw this s = Ok rv s' ->
  rv = anchor_ L /\
  ((rv = nullptr /\ s' = s) \/
   (rv <> nullptr /\ exists o, live s rv o /\ refcnt_ o = 0 /\
      s' = set_lists <[this := mkFreeListBase (u_ o) (wrap_unsigned (avail_ L - 1))]>
             (set_objs <[rv := with_u this o]> s))).
Proof.
  intros HL H.
  destruct (decide (anchor_ L = nullptr)) as [Ha | Ha].
  - rewrite (getRaw_empty s this L HL Ha) in H. injection H as <- <-.
    split; [congruence | left; split; reflexivity].
  - assert (Hn : exists o, live s (anchor_ L) o /\ refcnt_ o = 0).
    { unfold getRaw in H.
      rewrite (bind_Ok _ _ _ _ _ (deref_list_Ok _ _ _ HL)) in H.
      rewrite (when_ptr_nonnull _ _ Ha) in H.
      apply bind_Ok_inv in H. destruct H as ([] & s1 & H & _).
      apply bind_Ok_inv in H. destruct H as (n & s2 & H & _).
      apply next_inv in H. destruct H as (o & Hl & Hc & _).
      exists o. split; assumption. }
    destruct Hn as (o & Hl & Hc).
    rewrite (getRaw_head s this L o HL Ha Hl Hc) in H. injection H as <- <-.
    split; [reflexivity |]. right. split; [exact Ha |].
    exists o. repeat split; assumption || apply Hl.
Qed.

Lemma free_chain_frame ob ob' p l :
  free_chain ob p l -> (forall q, q ∈ l -> ob' !! q = ob !! q) -> free_chain ob' p l.
Proof.
  induction 1 as [| p o l Hnz Hlk Hch IH]; intros Hsame.
  - constructor.
  - apply (free_chain_node ob' p o l Hnz).
    + rewrite Hsame; [exact Hlk | apply list_elem_of_here].
    + apply IH. intros q Hq. apply Hsame. apply list_elem_of_further, Hq.
Qed.

Lemma wrap_unsigned_succ n :
  wrap_unsigned (wrap_unsigned (Z.of_nat n) + 1) = wrap_unsigned (Z.of_nat (S n)).
Proof.
  unfold wrap_unsigned. rewrite Zplus_mod_idemp_l. f_equal. lia.
Qed.

Lemma wrap_unsigned_pred n :
  wrap_unsigned (wrap_unsigned (Z.of_nat (S n)) - 1) = wrap_unsigned (Z.of_nat n).
Proof.
  unfold wrap_unsigned. rewrite Zminus_mod_idemp_l. f_equal. lia.
Qed.

(** A completed [put] of a node that is not on the chain adds that node in
    front and the counter counts it. *)
Lemma put_counted s this l p s' :
  counted_chain s this l -> p <> nullptr -> p ∉ l ->
  put this p s = Ok tt s' ->
  counted_chain s' this (p :: l).
Proof.
  intros (L & HL & Hch & Hnd & Hav) Hnz Hnot Hput.
  destruct (put_inv s this L p s' HL Hput) as (o & Hl & Hc & ->).
  exists (mkFreeListBase p (wrap_unsigned (avail_ L + 1))).
  split; [apply lookup_insert_eq |].
  split.
  { simpl. apply (free_chain_node _ p (with_u (anchor_ L) o) l Hnz).
    - apply lookup_insert_eq.
    - simpl. apply (free_chain_frame (objs s)); [exact Hch |].
      intros q Hq. apply lookup_insert_ne. intros ->. contradiction. }
  split; [apply NoDup_cons; split; assumption |].
  simpl avail_. rewrite Hav. apply wrap_unsigned_succ.
Qed.

(** A completed [getRaw] either found the chain empty and changed nothing,
    or removed the first node, and the counter counts the rest. *)
Lemma getRaw_counted s this l rv s' :
  counted_chain s this l -> getRaw this s = Ok rv s' ->
  (l = [] /\ rv = nullptr /\ s' = s) \/
  (exists l', l = rv :: l' /\ counted_chain s' this l').
Proof.
  intros (L & HL & Hch & Hnd & Hav) Hget.
  destruct (getRaw_inv s this L rv s' HL Hget)
    as [Hrv [[Hz ->] | (Hnz & o & Hl & Hc & ->)]].
  - left. rewrite <- Hrv, Hz in Hch. inversion Hch; [tauto | contradiction].
  - right. rewrite <- Hrv in Hch.
    inversion Hch as [E | p o0 l' _ Hlk Hrest]; [congruence |]. subst p l.
    assert (o0 = o) as -> by (destruct Hl as [Hlk' _]; congruence).
    apply NoDup_cons in Hnd. destruct Hnd as [Hnot Hnd].
    exists l'. split; [reflexivity |].
    exists (mkFreeListBase (u_ o) (wrap_unsigned (avail_ L - 1))).
    split; [apply lookup_insert_eq |].
    split.
    { simpl. apply (free_chain_frame (objs s)); [exact Hrest |].
      intros q Hq. apply lookup_insert_ne. intros ->. contradiction. }
    split; [exact Hnd |].
    simpl avail_. rewrite Hav. apply wrap_unsigned_pred.
Qed.

Lemma list_step_counted this s s' l :
  counted_chain s this l -> list_step this s s' -> exists l', counted_chain s' this l'.
Proof.
  intros Hcc Hstep. destruct Hstep as [p Hnz Hnot Hput | rv Hget | Hsame Hnodes].
  - exists (p :: l). apply (put_counted s this l p s' Hcc Hnz); [| exact Hput].
    destruct Hcc as (L & HL & Hch & _). apply (Hnot L l HL Hch).
  - destruct (getRaw_counted s this l rv s' Hcc Hget) as [(_ & _ & ->) | (l' & _ & H)].
    + exists l. exact Hcc.
    + exists l'. exact H.
  - exists l. destruct Hcc as (L & HL & Hch & Hnd & Hav).
    exists L. split; [rewrite Hsame; exact HL |].
    split; [| split; assumption].
    apply (free_chain_frame (objs s)); [exact Hch |].
    intros q Hq. apply (Hnodes L l HL Hch q Hq).
Qed.

(** C10, as stated, fails: after two completed [put]s of the same node
    (counter 0 both times) into a fresh list the counter is 2, while the
    node, the only object there is, is linked to itself: the chain has no
    end, and no count of its nodes is 2. *)
Lemma avail_counts_chain_counterexample :
  exists s',
    put_twice empty_list_and_node = Ok tt s' /\
    lists s' !! 200 = Some (mkFreeListBase 10 2) /\
    objs s' = {[ 10 := node_object 0 10 ]} /\
    ~ avail_is_chain_length s' 200.
Proof.
  eexists. split; [vm_compute; reflexivity |].
  split; [reflexivity |]. split; [reflexivity |].
  intros (L & l & HL & Hch & _).
  vm_compute in HL. injection HL as <-. simpl in Hch.
  assert (Hloop : forall l p, p = 10 ->
            ~ free_chain ({[ 10 := node_object 0 10 ]} : gmap Z object) p l).
  { clear. induction l as [| q l IH]; intros p -> H.
    - inversion H.
    - inversion H as [| p o l0 _ Hlk Hrest]; subst.
      rewrite lookup_singleton_eq in Hlk. injection Hlk as <-.
      apply (IH 10 eq_refl Hrest). }
  apply (Hloop l 10 eq_refl). exact Hch.
Qed.

(** C10, amended.  On a freshly constructed list the chain is empty and the
    counter is 0.  A completed [put] of a node that is not already on the
    chain adds that one node and raises the counter by one; a completed
    [getRaw] lowers the counter by one exactly when it removes a node and
    changes nothing when the chain is empty.  Hence after every sequence of
    such calls, interleaved with steps that leave the list and its chained
    nodes alone, [avail_] equals the number of nodes on the chain modulo
    2^32 (the counter is a 32-bit unsigned), hence equals it as long as
    fewer than 2^32 nodes are chained. *)
Theorem avail_counts_chain this :
  (forall s, lists s !! this = Some (mkFreeListBase nullptr 0) ->
             counted_chain s this []) /\
  (forall s l p s',
     counted_chain s this l -> p <> nullptr -> p ∉ l ->
     put this p s = Ok tt s' -> counted_chain s' this (p :: l)) /\
  (forall s l rv s',
     counted_chain s this l -> getRaw this s = Ok rv s' ->
     (l = [] /\ rv = nullptr /\ s' = s) \/
     (exists l', l = rv :: l' /\ counted_chain s' this l')) /\
  (forall s0 s,
     lists s0 !! this = Some (mkFreeListBase nullptr 0) ->
     rtc (list_step this) s0 s ->
     exists L l,
       lists s !! this = Some L /\ free_chain (objs s) (anchor_ L) l /\
       avail_ L = Z.of_nat (length l) mod 2 ^ 32 /\
       (Z.of_nat (length l) < 2 ^ 32 -> avail_ L = Z.of_nat (length l))).
Proof.
  assert (Hfresh : forall s, lists s !! this = Some (mkFreeListBase nullptr 0) ->
                             counted_chain s this []).
  { intros s HL. exists (mkFreeListBase nullptr 0).
    split; [exact HL |]. split; [constructor |].
    split; [constructor | reflexivity]. }
  split; [exact Hfresh |].
  split; [intros s l p s'; apply put_counted |].
  split; [intros s l rv s'; apply getRaw_counted |].
  intros s0 s HL Hrtc.
  assert (Hinv : exists l, counted_chain s this l).
  { revert s Hrtc.
    apply (rtc_ind_r (R := list_step this) (fun z => exists l, counted_chain z this l) s0).
    - exists []. apply Hfresh, HL.
    - intros y z _ Hstep [l Hcc]. apply (list_step_counted this y z l Hcc Hstep). }
  destruct Hinv as (l & L & HL' & Hch & _ & Hav).
  exists L, l. split; [exact HL' |]. split; [exact Hch |].
  split; [exact Hav |].
  intros Hsmall. rewrite Hav. unfold wrap_unsigned.
  apply Z.mod_small. lia.
Qed.

Lemma avail_counts_chain_witness :
  counted_chain empty_list_and_node 200 [] /\
  counted_chain after_put 200 [10] /\
  (([10] = [] /\ 10 = nullptr /\ after_getRaw = after_put) \/
   (exists l', [10] = 10 :: l' /\ counted_chain after_getRaw 200 l')) /\
  (exists L l,
     lists after_getRaw !! 200 = Some L /\
     free_chain (objs after_getRaw) (anchor_ L) l /\
     avail_ L = Z.of_nat (length l) mod 2 ^ 32 /\
     (Z.of_nat (length l) < 2 ^ 32 -> avail_ L = Z.of_nat (length l))).
Proof.
  destruct (avail_counts_chain 200) as (Hfresh & Hput & Hget & Htrace).
  assert (H0 : counted_chain empty_list_and_node 200 []).
  { apply Hfresh. reflexivity. }
  assert (Hp : put 200 10 empty_list_and_node = Ok tt after_put).
  { vm_compute. reflexivity. }
  assert (Hg : getRaw 200 after_put = Ok 10 after_getRaw).
  { vm_compute. reflexivity. }
  assert (H1 : counted_chain after_put 200 [10]).
  { apply (Hput empty_list_and_node [] 10 after_put H0).
    - discriminate.
    - apply not_elem_of_nil.
    - exact Hp. }
  split; [exact H0 |]. split; [exact H1 |].
  split; [apply (Hget after_put [10] 10 after_getRaw H1 Hg) |].
  apply (Htrace empty_list_and_node after_getRaw).
  - reflexivity.
  - apply (rtc_l _ _ after_put).
    + apply (step_put 200 _ _ 10); [discriminate | | exact Hp].
      intros L l HL Hch. vm_compute in HL. injection HL as <-.
      inversion Hch; [apply not_elem_of_nil | contradiction].
    + apply rtc_once. apply (step_getRaw 200 _ _ 10). exact Hg.
Defined.

(** * Further properties of the handle *)

(** ** Construction, copies and destruction *)

Lemma construct_from_empty cat s this rhs :
  shps s !! rhs = Some nullptr ->
  Shp.construct cat this rhs s = Ok tt (set_shps <[this := nullptr]> s).
Proof.
  intros Hh.
  assert (E : Shp.construct cat this rhs = Shp.ctor_copy_tag this rhs)
    by (destruct cat; reflexivity).
  rewrite E. unfold Shp.ctor_copy_tag.
  rewrite (bind_Ok _ _ _ _ _ (get_Ok _ _ _ Hh)). reflexivity.
Qed.

Lemma dtor_empty s h :
  shps s !! h = Some nullptr -> Shp.dtor h s = Ok tt (set_shps (delete h) s).
Proof.
  intros Hh. unfold Shp.dtor.
  rewrite (bind_Ok _ _ _ _ _ (get_Ok _ _ _ Hh)). reflexivity.
Qed.

Lemma Shp_use_count_live s h p o :
  shps s !! h = Some p -> p <> nullptr -> live s p o ->
  Shp.use_count h s = Ok (refcnt_ o) s.
Proof.
  intros Hh Hnz Hl. unfold Shp.use_count.
  rewrite (bind_Ok _ _ _ _ _ (get_Ok _ _ _ Hh)).
  destruct (Z.eqb_spec p nullptr); [contradiction |].
  apply (use_count_live _ _ _ Hl).
Qed.

Lemma state_restored s g p o o1 :
  shps s !! g = None -> objs s !! p = Some o ->
  set_shps (delete g)
    (set_objs <[p := o]> (set_objs <[p := o1]> (set_shps <[g := p]> s))) = s.
Proof.
  intros Hg Hp. destruct s as [ob li sh un]. unfold set_shps, set_objs. simpl in *.
  rewrite insert_insert_eq, (insert_id ob p o Hp), (delete_insert_id sh g p Hg).
  reflexivity.
Qed.

(** X1.  A copy of a handle that ends again leaves no trace: for a handle
    [h] that is empty or points to a live object with counter at least 1,
    building a handle at a free address [g] from [h] (from an lvalue or
    from [std::move(h)]) and destroying [g] gives back the very state: the
    counter, [h] and the hook trace are as before. *)
Theorem copy_then_destroy_restores cat s h g p :
  shps s !! h = Some p -> shps s !! g = None ->
  (p <> nullptr ->
   exists o, live s p o /\ in_int_range (refcnt_ o) /\ 1 <= refcnt_ o) ->
  (do Shp.construct cat g h then Shp.dtor g) s = Ok tt s.
Proof.
  intros Hh Hg Hp.
  destruct (decide (p = nullptr)) as [-> | Hnz].
  - rewrite (bind_Ok _ _ _ _ _ (construct_from_empty cat s g h Hh)).
    rewrite dtor_empty by apply lookup_insert_eq.
    f_equal. destruct s as [ob li sh un]. unfold set_shps. simpl in *.
    rewrite (delete_insert_id sh g nullptr Hg). reflexivity.
  - destruct (Hp Hnz) as (o & Hl & Hr & Hc).
    rewrite (bind_Ok _ _ _ _ _ (Shp_construct_copies cat s g h p o Hh Hnz Hl)).
    set (o1 := with_refcnt (wrap_int (refcnt_ o + 1)) o).
    set (s2 := set_objs <[p := o1]> (set_shps <[g := p]> s)).
    assert (Hl2 : live s2 p o1) by (split; [apply lookup_insert_eq | apply Hl]).
    assert (Hg2 : shps s2 !! g = Some p) by apply lookup_insert_eq.
    assert (Hne : refcnt_ o1 <> 1) by (apply wrap_int_inc_not_one; [exact Hr | lia]).
    rewrite (dtor_Ok s2 g p _ _ Hg2 Hnz (decRef_live_not_last _ _ _ Hl2 Hne)).
    f_equal. unfold o1 at 1 2. rewrite with_refcnt_twice. simpl refcnt_.
    rewrite (wrap_int_inc_dec _ Hr), with_refcnt_same.
    apply state_restored; [exact Hg | apply Hl].
Qed.

Lemma copy_then_destroy_restores_witness :
  (do Shp.construct xvalue 101 100 then Shp.dtor 101) sole_owner = Ok tt sole_owner.
Proof.
  apply (copy_then_destroy_restores xvalue sole_owner 100 101 10).
  - reflexivity.
  - reflexivity.
  - intros _. exists (plain_object 1). split; [split; reflexivity |].
    split; vm_compute; [split |]; discriminate.
Defined.

Lemma wrap_int_small c : 0 <= c <= 2 -> wrap_int c = c.
Proof.
  intros H. apply wrap_int_id. unfold in_int_range, INT_MAX. lia.
Qed.

(** X2.  The life of an object under the default hook.  A live object [X]
    with counter 0 is wrapped by [Shp(T *p)] at [h1]: [use_count] is 1.  It
    is copied to [h2]: [use_count] is 2 through both handles.  [h1] ends:
    [use_count] is 1 and the hook has not run.  [h2] ends: the hook runs,
    once, and all that has changed in the end is that [X] is destroyed and
    the hook trace has grown by [X]. *)
Theorem handle_lifecycle s X o h1 h2 :
  X <> nullptr -> live s X o -> refcnt_ o = 0 -> vptr o = ShpBase_vtbl ->
  h1 <> h2 -> shps s !! h1 = None -> shps s !! h2 = None ->
  exists s1 s2 s3,
    Shp.ctor_ptr h1 X s = Ok tt s1 /\
    Shp.use_count h1 s1 = Ok 1 s1 /\
    Shp.ctor_copy h2 h1 s1 = Ok tt s2 /\
    Shp.use_count h1 s2 = Ok 2 s2 /\ Shp.use_count h2 s2 = Ok 2 s2 /\
    Shp.dtor h1 s2 = Ok tt s3 /\
    Shp.use_count h2 s3 = Ok 1 s3 /\ unmanaged s3 = unmanaged s /\
    Shp.dtor h2 s3
    = Ok tt (set_objs <[X := with_destroyed o]>
               (set_unmanaged (fun t => t ++ [X]) s)).
Proof.
  intros Hnz Hl Hc Hv Hne Hh1 Hh2.
  (* after the construction from the raw pointer *)
  set (o1 := with_refcnt 1 o).
  set (s1 := set_objs <[X := o1]> (set_shps <[h1 := X]> s)).
  assert (H1 : Shp.ctor_ptr h1 X s = Ok tt s1).
  { rewrite (ctor_ptr_live s h1 X o Hnz Hl), Hc. reflexivity. }
  assert (Hl1 : live s1 X o1) by (split; [apply lookup_insert_eq | apply Hl]).
  assert (Hs1 : shps s1 !! h1 = Some X) by apply lookup_insert_eq.
  (* after the copy *)
  set (o2 := with_refcnt 2 o).
  set (s2 := set_objs <[X := o2]> (set_shps <[h2 := X]> s1)).
  assert (H2 : Shp.ctor_copy h2 h1 s1 = Ok tt s2).
  { change (Shp.ctor_copy h2 h1) with (Shp.construct lvalue h2 h1).
    rewrite (Shp_construct_copies lvalue s1 h2 h1 X o1 Hs1 Hnz Hl1). reflexivity. }
  assert (Hl2 : live s2 X o2) by (split; [apply lookup_insert_eq | apply Hl]).
  assert (Hs2a : shps s2 !! h1 = Some X).
  { simpl. rewrite lookup_insert_ne by congruence. apply lookup_insert_eq. }
  assert (Hs2b : shps s2 !! h2 = Some X) by apply lookup_insert_eq.
  (* after the end of h1 *)
  set (o3 := with_refcnt 1 o).
  set (s3 := set_shps (delete h1) (set_objs <[X := o3]> s2)).
  assert (H3 : Shp.dtor h1 s2 = Ok tt s3).
  { apply (dtor_Ok s2 h1 X _ 2 Hs2a Hnz).
    rewrite (decRef_live_not_last s2 X o2 Hl2) by discriminate. reflexivity. }
  assert (Hl3 : live s3 X o3) by (split; [apply lookup_insert_eq | apply Hl]).
  assert (Hs3 : shps s3 !! h2 = Some X).
  { simpl. rewrite lookup_delete_ne by congruence. apply lookup_insert_eq. }
  exists s1, s2, s3.
  split; [exact H1 |].
  split; [apply (Shp_use_count_live s1 h1 X o1 Hs1 Hnz Hl1) |].
  split; [exact H2 |].
  split; [apply (Shp_use_count_live s2 h1 X o2 Hs2a Hnz Hl2) |].
  split; [apply (Shp_use_count_live s2 h2 X o2 Hs2b Hnz Hl2) |].
  split; [exact H3 |].
  split; [apply (Shp_use_count_live s3 h2 X o3 Hs3 Hnz Hl3) |].
  split; [reflexivity |].
  (* the end of h2 *)
  assert (Hdec : decRef X s3
                 = Ok 1 (set_objs <[X := with_destroyed (with_refcnt 0 o3)]>
                           (set_unmanaged (fun t => t ++ [X])
                              (set_objs <[X := with_refcnt 0 o3]> s3)))).
  { rewrite (decRef_live_last s3 X o3 Hl3 eq_refl).
    assert (Hl0 : live (set_objs <[X := with_refcnt 0 o3]> s3) X (with_refcnt 0 o3))
      by (split; [apply lookup_insert_eq | apply Hl]).
    rewrite (bind_Ok _ _ _ _ _ (unmanage_default _ _ _ Hl0 Hv)). reflexivity. }
  rewrite (dtor_Ok s3 h2 X _ 1 Hs3 Hnz Hdec). f_equal.
  assert (Ho : with_refcnt 0 o3 = o).
  { unfold o3. rewrite with_refcnt_twice, <- Hc. apply with_refcnt_same. }
  rewrite Ho.
  destruct s as [ob li sh un].
  unfold s3, s2, s1, set_shps, set_objs, set_unmanaged. simpl in *.
  rewrite !insert_insert_eq.
  rewrite (delete_insert_ne _ h1 h2) by congruence.
  rewrite (delete_insert_id sh h1 X Hh1), (delete_insert_id sh h2 X Hh2).
  reflexivity.
Qed.

(** A live object with counter 0 at 10 and no handle yet. *)
Lemma handle_lifecycle_witness :
  exists s1 s2 s3,
    Shp.ctor_ptr 100 10 (mkState {[ 10 := plain_object 0 ]} ∅ ∅ []) = Ok tt s1 /\
    Shp.use_count 100 s1 = Ok 1 s1 /\
    Shp.ctor_copy 101 100 s1 = Ok tt s2 /\
    Shp.use_count 100 s2 = Ok 2 s2 /\ Shp.use_count 101 s2 = Ok 2 s2 /\
    Shp.dtor 100 s2 = Ok tt s3 /\
    Shp.use_count 101 s3 = Ok 1 s3 /\
    unmanaged s3 = unmanaged (mkState {[ 10 := plain_object 0 ]} ∅ ∅ []) /\
    Shp.dtor 101 s3
    = Ok tt (set_objs <[10 := with_destroyed (plain_object 0)]>
               (set_unmanaged (fun t => t ++ [10])
                  (mkState {[ 10 := plain_object 0 ]} ∅ ∅ []))).
Proof.
  apply (handle_lifecycle (mkState {[ 10 := plain_object 0 ]} ∅ ∅ []) 10
           (plain_object 0) 100 101).
  - discriminate.
  - split; reflexivity.
  - reflexivity.
  - reflexivity.
  - discriminate.
  - reflexivity.
  - reflexivity.
Defined.

(** ** [reset] and [swap] *)

(** X3.  [reset] empties the handle and gives up its share exactly once: on
    an empty handle it changes nothing; on a handle that points to a live
    object it does one [decRef] (which runs the hook if that was the last
    share) and clears the pointer.  A second [reset] changes nothing. *)
Theorem reset_releases_once s h p :
  shps s !! h = Some p ->
  (p <> nullptr ->
   exists o, live s p o /\ (refcnt_ o = 1 -> hook_ready s o)) ->
  exists s',
    Shp.reset h s = Ok tt s' /\
    shps s' !! h = Some nullptr /\
    Shp.reset h s' = Ok tt s' /\
    (p = nullptr -> s' = s) /\
    (p <> nullptr ->
     exists v s1, decRef p s = Ok v s1 /\ s' = set_shps <[h := nullptr]> s1).
Proof.
  intros Hh Hp.
  assert (Hagain : forall s', shps s' !! h = Some nullptr -> Shp.reset h s' = Ok tt s').
  { intros s' H. unfold Shp.reset.
    rewrite (bind_Ok _ _ _ _ _ (get_Ok _ _ _ H)). reflexivity. }
  destruct (decide (p = nullptr)) as [-> | Hnz].
  - exists s. split; [apply (Hagain s Hh) |]. split; [exact Hh |].
    split; [apply (Hagain s Hh) |]. split; [reflexivity | contradiction].
  - destruct (Hp Hnz) as (o & Hl & Hr).
    destruct (decRef_effect s p o Hl Hr) as (s1 & o' & Hdec & _).
    exists (set_shps <[h := nullptr]> s1).
    assert (Hnew : shps (set_shps <[h := nullptr]> s1) !! h = Some nullptr)
      by apply lookup_insert_eq.
    split.
    { unfold Shp.reset.
      rewrite (bind_Ok _ _ _ _ _ (get_Ok _ _ _ Hh)), (when_ptr_nonnull _ _ Hnz).
      rewrite (bind_Ok _ _ _ _ _ Hdec). reflexivity. }
    split; [exact Hnew |].
    split; [apply (Hagain _ Hnew) |].
    split; [contradiction |].
    intros _. exists (refcnt_ o), s1. split; [exact Hdec | reflexivity].
Qed.

Lemma reset_releases_once_witness :
  exists s',
    Shp.reset 100 two_owners = Ok tt s' /\
    shps s' !! 100 = Some nullptr /\
    Shp.reset 100 s' = Ok tt s' /\
    (10 = nullptr -> s' = two_owners) /\
    (10 <> nullptr ->
     exists v s1, decRef 10 two_owners = Ok v s1 /\ s' = set_shps <[100 := nullptr]> s1).
Proof.
  apply (reset_releases_once two_owners 100 10).
  - reflexivity.
  - intros _. exists (plain_object 2). split; [split; reflexivity |].
    intros H. discriminate H.
Defined.

(** X4.  [swap] exchanges the pointers of two handles and touches nothing
    else: no counter changes, the hook does not run, other handles keep
    their pointers.  A second [swap] gives back the very state.  The two
    handles may be one and the same. *)
Theorem swap_exchanges_pointers s a b pa pb :
  shps s !! a = Some pa -> shps s !! b = Some pb ->
  exists s',
    Shp.swap a b s = Ok tt s' /\
    shps s' !! a = Some pb /\ shps s' !! b = Some pa /\
    (forall h, h <> a -> h <> b -> shps s' !! h = shps s !! h) /\
    objs s' = objs s /\ lists s' = lists s /\ unmanaged s' = unmanaged s /\
    Shp.swap a b s' = Ok tt s.
Proof.
  intros Ha Hb.
  set (s' := set_shps <[a := pb]> (set_shps <[b := pa]> s)).
  assert (Hrun : Shp.swap a b s = Ok tt s').
  { unfold Shp.swap.
    rewrite (bind_Ok _ _ _ _ _ (get_Ok _ _ _ Hb)).
    rewrite (bind_Ok _ _ _ _ _ (get_Ok _ _ _ Ha)). reflexivity. }
  assert (Ha' : shps s' !! a = Some pb) by apply lookup_insert_eq.
  assert (Hb' : shps s' !! b = Some pa).
  { simpl. destruct (decide (a = b)) as [-> | Hne].
    - rewrite lookup_insert_eq. congruence.
    - rewrite lookup_insert_ne by done. apply lookup_insert_eq. }
  exists s'. split; [exact Hrun |]. split; [exact Ha' |]. split; [exact Hb' |].
  split.
  { intros h H1 H2. simpl. rewrite !lookup_insert_ne by congruence. reflexivity. }
  split; [reflexivity |]. split; [reflexivity |]. split; [reflexivity |].
  unfold Shp.swap.
  rewrite (bind_Ok _ _ _ _ _ (get_Ok _ _ _ Hb')).
  rewrite (bind_Ok _ _ _ _ _ (get_Ok _ _ _ Ha')).
  unfold Shp.set_p_, bind. cbv beta. f_equal.
  destruct s as [ob li sh un]. unfold s', set_shps. simpl in *. f_equal.
  apply map_eq. intros h.
  destruct (decide (h = a)) as [-> | Hna].
  - rewrite lookup_insert_eq. congruence.
  - rewrite lookup_insert_ne by congruence.
    destruct (decide (h = b)) as [-> | Hnb].
    + rewrite lookup_insert_eq. congruence.
    + rewrite !lookup_insert_ne by congruence. reflexivity.
Qed.

Lemma swap_exchanges_pointers_witness :
  exists s',
    Shp.swap 100 101 owner_and_other = Ok tt s' /\
    shps s' !! 100 = Some 20 /\ shps s' !! 101 = Some 10 /\
    (forall h, h <> 100 -> h <> 101 -> shps s' !! h = shps owner_and_other !! h) /\
    objs s' = objs owner_and_other /\ lists s' = lists owner_and_other /\
    unmanaged s' = unmanaged owner_and_other /\
    Shp.swap 100 101 s' = Ok tt owner_and_other.
Proof.
  apply (swap_exchanges_pointers owner_and_other 100 101 10 20); reflexivity.
Defined.

(** ** Move assignment from a handle of another element type *)

(** X5.  The template [operator=(Shp<U> &&)] of lines 165-180, between
    handles whose pointers differ: the target gives up its old share
    exactly once (one [decRef] on the old object, if there was one, which
    runs the hook if that was the last share), takes over the source's
    pointer and the source is left empty; no counter other than the old
    object's changes, so the share of the source passes to the target as
    it is. *)
Theorem move_assign_transfers s h1 h2 A B :
  shps s !! h1 = Some A -> shps s !! h2 = Some B -> A <> B ->
  (A <> nullptr ->
   exists oA, live s A oA /\ (refcnt_ oA = 1 -> hook_ready s oA)) ->
  exists s',
    Shp.assign xvalue false h1 h2 s = Ok tt s' /\
    shps s' !! h1 = Some B /\ shps s' !! h2 = Some nullptr /\
    (forall q, q <> A -> objs s' !! q = objs s !! q) /\
    (A = nullptr -> objs s' = objs s /\ unmanaged s' = unmanaged s) /\
    (A <> nullptr ->
     exists oA oA',
       live s A oA /\ objs s' !! A = Some oA' /\
       refcnt_ oA' = wrap_int (refcnt_ oA - 1) /\
       (refcnt_ oA = 1 -> unmanaged s' = unmanaged s ++ [A]) /\
       (refcnt_ oA <> 1 -> unmanaged s' = unmanaged s)).
Proof.
  intros Hh1 Hh2 HAB HA.
  assert (Hne : h1 <> h2) by (intros ->; congruence).
  assert (Hneq : (A =? B) = false) by (apply Z.eqb_neq; exact HAB).
  set (s1 := set_shps <[h1 := B]> s).
  destruct (decide (A = nullptr)) as [-> | Hnz].
  - exists (set_shps <[h2 := nullptr]> s1).
    split.
    { simpl. unfold Shp.assign_move_tmpl.
      rewrite (bind_Ok _ _ _ _ _ (get_Ok _ _ _ Hh1)).
      rewrite (bind_Ok _ _ _ _ _ (get_Ok _ _ _ Hh2)).
      rewrite bind_set_p_, Hneq. reflexivity. }
    split; [simpl; rewrite lookup_insert_ne by congruence; apply lookup_insert_eq |].
    split; [apply lookup_insert_eq |].
    split; [reflexivity |]. split; [split; reflexivity | contradiction].
  - destruct (HA Hnz) as (oA & Hl & Hr).
    assert (Hl1 : live s1 A oA) by exact Hl.
    destruct (decRef_effect s1 A oA Hl1 Hr)
      as (s2 & oA' & Hdec & Hlk & Hcnt & _ & Hsh & Hfr & Hlog & Hno).
    exists (set_shps <[h2 := nullptr]> s2).
    split.
    { simpl. unfold Shp.assign_move_tmpl.
      rewrite (bind_Ok _ _ _ _ _ (get_Ok _ _ _ Hh1)).
      rewrite (bind_Ok _ _ _ _ _ (get_Ok _ _ _ Hh2)).
      rewrite bind_set_p_, Hneq. fold s1.
      rewrite (when_ptr_nonnull _ _ Hnz).
      unfold bind at 1. unfold bind at 1. rewrite Hdec. reflexivity. }
    split.
    { simpl. rewrite lookup_insert_ne by congruence. rewrite Hsh. apply lookup_insert_eq. }
    split; [apply lookup_insert_eq |].
    split; [intros q Hq; apply (Hfr q Hq) |].
    split; [contradiction |].
    intros _. exists oA, oA'.
    split; [exact Hl |]. split; [exact Hlk |]. split; [exact Hcnt |].
    split; [exact Hlog |]. intros H. apply (Hno H).
Qed.

Lemma move_assign_transfers_witness :
  exists s',
    Shp.assign xvalue false 100 101 owner_and_other = Ok tt s' /\
    shps s' !! 100 = Some 20 /\ shps s' !! 101 = Some nullptr /\
    (forall q, q <> 10 -> objs s' !! q = objs owner_and_other !! q) /\
    (10 = nullptr -> objs s' = objs owner_and_other /\
                     unmanaged s' = unmanaged owner_and_other) /\
    (10 <> nullptr ->
     exists oA oA',
       live owner_and_other 10 oA /\ objs s' !! 10 = Some oA' /\
       refcnt_ oA' = wrap_int (refcnt_ oA - 1) /\
       (refcnt_ oA = 1 -> unmanaged s' = unmanaged owner_and_other ++ [10]) /\
       (refcnt_ oA <> 1 -> unmanaged s' = unmanaged owner_and_other)).
Proof.
  apply (move_assign_transfers owner_and_other 100 101 10 20).
  - reflexivity.
  - reflexivity.
  - discriminate.
  - intros _. exists (plain_object 1). split; [split; reflexivity |].
    intros _. exact I.
Defined.

(** The same template between handles that hold the same pointer, two
    empty handles and a handle moved into itself included, is a no-op
    whatever that pointer is: no object is looked at, and the source is
    not cleared. *)
Theorem move_assign_same_pointer_is_noop s h1 h2 p :
  shps s !! h1 = Some p -> shps s !! h2 = Some p ->
  Shp.assign xvalue false h1 h2 s = Ok tt s.
Proof.
  intros Hh1 Hh2. simpl. unfold Shp.assign_move_tmpl.
  rewrite (bind_Ok _ _ _ _ _ (get_Ok _ _ _ Hh1)).
  rewrite (bind_Ok _ _ _ _ _ (get_Ok _ _ _ Hh2)).
  rewrite bind_set_p_, (set_shps_id _ _ _ Hh1), Z.eqb_refl. reflexivity.
Qed.

Lemma move_assign_same_pointer_is_noop_witness :
  Shp.assign xvalue false 100 100 sole_owner = Ok tt sole_owner.
Proof.
  apply (move_assign_same_pointer_is_noop sole_owner 100 100 10); reflexivity.
Defined.

(** * Further properties of the free list *)

(** ** What a throwing call leaves behind *)

Lemma deref_cases s p :
  (exists o, live s p o) \/ deref p s = Undefined.
Proof.
  unfold deref, live. destruct (objs s !! p) as [o |]; [| right; reflexivity].
  destruct (destroyed o) eqn:E; [right; reflexivity |].
  left. exists o. split; [reflexivity | exact E].
Qed.

Lemma bind_Undefined {A B} (m : M A) (k : A -> M B) s :
  m s = Undefined -> bind m k s = Undefined.
Proof. unfold bind. intros ->. reflexivity. Qed.

Lemma put_throws s this L p o :
  lists s !! this = Some L -> live s p o -> refcnt_ o <> 0 ->
  put this p s = Throw_bad_alloc s.
Proof.
  intros HL Hl Hc. unfold put.
  rewrite (bind_Ok _ _ _ _ _ (deref_list_Ok _ _ _ HL)).
  unfold bind. destruct (accessor_throws s p o Hl Hc) as (_ & -> & _). reflexivity.
Qed.

Lemma getRaw_throws s this L o :
  lists s !! this = Some L -> anchor_ L <> nullptr ->
  live s (anchor_ L) o -> refcnt_ o <> 0 ->
  getRaw this s = Throw_bad_alloc s.
Proof.
  intros HL Ha Hl Hc. unfold getRaw.
  rewrite (bind_Ok _ _ _ _ _ (deref_list_Ok _ _ _ HL)).
  rewrite (when_ptr_nonnull _ _ Ha).
  unfold bind. destruct (accessor_throws s _ o Hl Hc) as (-> & _). reflexivity.
Qed.

Lemma put_Throw_inv s this p s' :
  put this p s = Throw_bad_alloc s' ->
  s' = s /\ exists o, live s p o /\ refcnt_ o <> 0.
Proof.
  intros H.
  destruct (lists s !! this) as [L |] eqn:HL.
  - destruct (deref_cases s p) as [[o Hl] | Hu].
    + destruct (decide (refcnt_ o = 0)) as [Hc | Hc].
      * rewrite (put_live s this L p o HL Hl Hc) in H. discriminate.
      * rewrite (put_throws s this L p o HL Hl Hc) in H. injection H as <-.
        split; [reflexivity |]. exists o. split; assumption.
    + exfalso. unfold put in H.
      rewrite (bind_Ok _ _ _ _ _ (deref_list_Ok _ _ _ HL)) in H.
      unfold setNext, use_count in H.
      rewrite (bind_Undefined _ _ _ (bind_Undefined _ _ _ (bind_Undefined _ _ _ Hu))) in H.
      discriminate.
  - exfalso. unfold put, deref_list, bind in H. rewrite HL in H. discriminate.
Qed.

Lemma getRaw_Throw_inv s this s' :
  getRaw this s = Throw_bad_alloc s' ->
  s' = s /\
  exists L o, lists s !! this = Some L /\ anchor_ L <> nullptr /\
              live s (anchor_ L) o /\ refcnt_ o <> 0.
Proof.
  intros H.
  destruct (lists s !! this) as [L |] eqn:HL.
  - destruct (decide (anchor_ L = nullptr)) as [Ha | Ha].
    { rewrite (getRaw_empty s this L HL Ha) in H. discriminate. }
    destruct (deref_cases s (anchor_ L)) as [[o Hl] | Hu].
    + destruct (decide (refcnt_ o = 0)) as [Hc | Hc].
      * rewrite (getRaw_head s this L o HL Ha Hl Hc) in H. discriminate.
      * rewrite (getRaw_throws s this L o HL Ha Hl Hc) in H. injection H as <-.
        split; [reflexivity |]. exists L, o. repeat split; assumption || apply Hl.
    + exfalso. unfold getRaw in H.
      rewrite (bind_Ok _ _ _ _ _ (deref_list_Ok _ _ _ HL)) in H.
      rewrite (when_ptr_nonnull _ _ Ha) in H.
      unfold next, use_count in H.
      rewrite (bind_Undefined _ _ _
                 (bind_Undefined _ _ _
                    (bind_Undefined _ _ _ (bind_Undefined _ _ _ Hu)))) in H.
      discriminate.
  - exfalso. unfold getRaw, deref_list, bind in H. rewrite HL in H. discriminate.
Qed.

Lemma ctor_ptr_never_throws h p s s' :
  Shp.ctor_ptr h p s = Throw_bad_alloc s' -> False.
Proof.
  unfold Shp.ctor_ptr. rewrite bind_set_p_.
  unfold when_ptr. destruct (p =? nullptr); [discriminate |].
  unfold bind, incRef, refcnt_fetch_add, bind, deref, store, ret. simpl.
  destruct (objs s !! p) as [o |]; [| discriminate].
  destruct (destroyed o); discriminate.
Qed.

(** X6.  [put], [getRaw] and [get<T>()] throw before they change anything.
    When one of them throws [std::bad_alloc] the state is the one it was
    called in: the list, its counter and every node are untouched and
    [get<T>()] has built no handle.  They throw exactly when the node they
    must link or unlink (the argument of [put], the head of the chain) is
    live with a counter other than 0. *)
Theorem list_calls_throw_without_effect s this :
  (forall p s',
     put this p s = Throw_bad_alloc s' <->
     s' = s /\ is_Some (lists s !! this) /\
     exists o, live s p o /\ refcnt_ o <> 0) /\
  (forall s',
     getRaw this s = Throw_bad_alloc s' <->
     s' = s /\
     exists L o, lists s !! this = Some L /\ anchor_ L <> nullptr /\
                 live s (anchor_ L) o /\ refcnt_ o <> 0) /\
  (forall result s',
     get this result s = Throw_bad_alloc s' <-> getRaw this s = Throw_bad_alloc s').
Proof.
  split; [| split].
  - intros p s'. split.
    + intros H. destruct (put_Throw_inv s this p s' H) as [-> Ho].
      split; [reflexivity |]. split; [| exact Ho].
      destruct (lists s !! this) eqn:HL; [eexists; reflexivity |].
      unfold put, deref_list, bind in H. rewrite HL in H. discriminate.
    + intros (-> & [L HL] & o & Hl & Hc). apply (put_throws s this L p o HL Hl Hc).
  - intros s'. split.
    + apply getRaw_Throw_inv.
    + intros (-> & L & o & HL & Ha & Hl & Hc). apply (getRaw_throws s this L o HL Ha Hl Hc).
  - intros result s'. unfold get. split.
    + intros H. unfold bind in H.
      destruct (getRaw this s) as [rv s1 | s1 |]; [| congruence | discriminate].
      exfalso. apply (ctor_ptr_never_throws _ _ _ _ H).
    + intros H. unfold bind. rewrite H. reflexivity.
Qed.

(** The head of the list at 200 is the node at 10, which a handle holds. *)
Lemma list_calls_throw_without_effect_witness :
  put 200 10 sole_owner_of_node = Throw_bad_alloc sole_owner_of_node /\
  getRaw 200 (set_lists <[200 := mkFreeListBase 10 1]> sole_owner_of_node)
  = Throw_bad_alloc (set_lists <[200 := mkFreeListBase 10 1]> sole_owner_of_node) /\
  get 200 101 (set_lists <[200 := mkFreeListBase 10 1]> sole_owner_of_node)
  = Throw_bad_alloc (set_lists <[200 := mkFreeListBase 10 1]> sole_owner_of_node).
Proof.
  pose (s1 := set_lists <[200 := mkFreeListBase 10 1]> sole_owner_of_node).
  assert (Hg : getRaw 200 s1 = Throw_bad_alloc s1).
  { apply (proj1 (proj2 (list_calls_throw_without_effect s1 200))).
    split; [reflexivity |].
    exists (mkFreeListBase 10 1), (node_object 1 200).
    split; [reflexivity |]. split; [discriminate |].
    split; [split; reflexivity | discriminate]. }
  split; [| split].
  - apply (proj1 (list_calls_throw_without_effect sole_owner_of_node 200)).
    split; [reflexivity |]. split; [eexists; reflexivity |].
    exists (node_object 1 200). split; [split; reflexivity | discriminate].
  - exact Hg.
  - apply (proj2 (proj2 (list_calls_throw_without_effect s1 200))). exact Hg.
Defined.

(** ** The chain and the destructor *)

Lemma free_chain_functional ob p l :
  free_chain ob p l -> forall l', free_chain ob p l' -> l = l'.
Proof.
  induction 1 as [| p o l Hnz Hlk Hch IH]; intros l' H'.
  - inversion H'; [reflexivity | contradiction].
  - inversion H' as [E | p' o' l0 _ Hlk' Hch']; [congruence |]. subst.
    assert (o' = o) as -> by congruence.
    f_equal. apply IH. exact Hch'.
Qed.

Lemma free_chain_suffix ob l1 : forall q x l2,
  free_chain ob q (l1 ++ x :: l2) -> free_chain ob x (x :: l2).
Proof.
  induction l1 as [| y l1 IH]; intros q x l2 H; simpl in H.
  - inversion H; subst. exact H.
  - inversion H as [| p o l0 _ _ Hrest]; subst. apply (IH _ _ _ Hrest).
Qed.

(** A chain that ends meets no node twice. *)
Lemma free_chain_NoDup ob p l : free_chain ob p l -> NoDup l.
Proof.
  induction 1 as [| p o l Hnz Hlk Hch IH]; [constructor |].
  apply NoDup_cons; split; [| exact IH].
  intros Hin. apply list_elem_of_split in Hin. destruct Hin as (l1 & l2 & ->).
  pose proof (free_chain_suffix ob l1 _ p l2 Hch) as Hsuf.
  inversion Hsuf as [| p' o' l0 _ Hlk' Hrest]; subst.
  assert (o' = o) as -> by congruence.
  pose proof (free_chain_functional ob _ _ Hch _ Hrest) as E.
  apply (f_equal length) in E. rewrite length_app in E. simpl in E. lia.
Qed.

Lemma delete_live s p o :
  live s p o -> delete_ p s = Ok tt (set_objs <[p := with_destroyed o]> s).
Proof.
  intros Hl. unfold delete_.
  rewrite (bind_Ok _ _ _ _ _ (deref_live _ _ _ Hl)). reflexivity.
Qed.

Lemma drain_chain l : forall s this L fuel,
  lists s !! this = Some L -> free_chain (objs s) (anchor_ L) l ->
  (forall p, p ∈ l -> exists o, live s p o /\ refcnt_ o = 0) ->
  (length l < fuel)%nat ->
  exists s', drain fuel this s = Ok true s' /\ drained s s' this l.
Proof.
  induction l as [| rv l IH]; intros s this L fuel HL Hch Hnodes Hfuel.
  - destruct fuel as [| fuel]; [simpl in Hfuel; lia |].
    inversion Hch as [Ha |]; subst.
    exists s. split.
    + simpl. rewrite (bind_Ok _ _ _ _ _ (getRaw_empty s this L HL (eq_sym Ha))).
      reflexivity.
    + split; [exists L; split; [exact HL | congruence] |].
      split; [intros p Hp; inversion Hp |].
      repeat split; reflexivity.
  - destruct fuel as [| fuel]; [simpl in Hfuel; lia |].
    pose proof (free_chain_NoDup _ _ _ Hch) as Hnd.
    apply NoDup_cons in Hnd. destruct Hnd as [Hnot _].
    inversion Hch as [| p o0 l0 Hnz Hlk Hrest Ep]; subst.
    destruct (Hnodes (anchor_ L) (list_elem_of_here _ _)) as (o & Hl & Hc).
    assert (o0 = o) as -> by (destruct Hl; congruence).
    set (rv := anchor_ L) in *.
    pose proof (getRaw_head s this L o HL Hnz Hl Hc) as Hget. fold rv in Hget.
    set (L1 := mkFreeListBase (u_ o) (wrap_unsigned (avail_ L - 1))) in Hget.
    set (s1 := set_lists <[this := L1]> (set_objs <[rv := with_u this o]> s)) in Hget.
    assert (Hl1 : live s1 rv (with_u this o))
      by (split; [apply lookup_insert_eq | apply Hl]).
    set (s2 := set_objs <[rv := with_destroyed (with_u this o)]> s1).
    assert (HL2 : lists s2 !! this = Some L1) by apply lookup_insert_eq.
    assert (Hsame : forall q, q <> rv -> objs s2 !! q = objs s !! q).
    { intros q Hq. simpl. rewrite !lookup_insert_ne by congruence. reflexivity. }
    assert (Hch2 : free_chain (objs s2) (anchor_ L1) l).
    { apply (free_chain_frame (objs s)); [exact Hrest |].
      intros q Hq. apply Hsame. intros ->. contradiction. }
    assert (Hnodes2 : forall p, p ∈ l -> exists o, live s2 p o /\ refcnt_ o = 0).
    { intros p Hp.
      destruct (Hnodes p (list_elem_of_further _ _ _ Hp)) as (op & [Hlk' Hd'] & Hc').
      exists op. split; [| exact Hc']. split; [| exact Hd'].
      rewrite Hsame; [exact Hlk' | intros ->; contradiction]. }
    destruct (IH s2 this L1 fuel HL2 Hch2 Hnodes2 ltac:(simpl in Hfuel; lia))
      as (s' & Hrun & HL' & Hdead & Hrest' & Hlists & Hshps & Hun).
    exists s'. split.
    + change (drain (S fuel) this s)
        with (bind (getRaw this)
                (fun p => if p =? nullptr then ret true
                          else do delete_ p then drain fuel this) s).
      rewrite (bind_Ok _ _ _ _ _ Hget).
      destruct (Z.eqb_spec rv nullptr); [contradiction |].
      rewrite (bind_Ok _ _ _ _ _ (delete_live s1 rv _ Hl1)). exact Hrun.
    + split; [exact HL' |].
      split.
      { intros p Hp. apply elem_of_cons in Hp. destruct Hp as [-> | Hp].
        - exists o. split; [apply Hl |].
          rewrite (Hrest' rv Hnot). apply lookup_insert_eq.
        - destruct (Hdead p Hp) as (op & Hop & Hop').
          exists op. split; [| exact Hop'].
          rewrite <- Hsame; [exact Hop | intros ->; contradiction]. }
      split.
      { intros q Hq. apply not_elem_of_cons in Hq. destruct Hq as [Hq1 Hq2].
        rewrite (Hrest' q Hq2). apply Hsame, Hq1. }
      split.
      { intros q Hq. rewrite (Hlists q Hq). simpl.
        rewrite lookup_insert_ne by congruence. reflexivity. }
      split; [rewrite Hshps; reflexivity | rewrite Hun; reflexivity].
Qed.

(** X7.  The destructor of a list whose chain [l] ends and holds live nodes
    with counter 0 comes to its end (after one call of [getRaw] per node
    and one more), destroys exactly the nodes of [l], each once, and
    removes the list; objects that are not on the chain (nodes that are
    checked out among them), the other lists, the handles and the hook
    trace are as before: no hook runs. *)
Theorem list_dtor_destroys_chain s this L l fuel :
  lists s !! this = Some L -> free_chain (objs s) (anchor_ L) l ->
  (forall p, p ∈ l -> exists o, live s p o /\ refcnt_ o = 0) ->
  (length l < fuel)%nat ->
  exists s',
    FreeListBase_dtor fuel this s = Ok true s' /\
    lists s' !! this = None /\
    NoDup l /\
    (forall p, p ∈ l ->
       exists o, objs s !! p = Some o /\
                 objs s' !! p = Some (with_destroyed (with_u this o))) /\
    (forall q, q ∉ l -> objs s' !! q = objs s !! q) /\
    (forall q, q <> this -> lists s' !! q = lists s !! q) /\
    shps s' = shps s /\ unmanaged s' = unmanaged s.
Proof.
  intros HL Hch Hnodes Hfuel.
  destruct (drain_chain l s this L fuel HL Hch Hnodes Hfuel)
    as (s1 & Hrun & _ & Hdead & Hrest & Hlists & Hshps & Hun).
  exists (set_lists (delete this) s1).
  split.
  { unfold FreeListBase_dtor. rewrite (bind_Ok _ _ _ _ _ Hrun). reflexivity. }
  split; [apply lookup_delete_eq |].
  split; [apply (free_chain_NoDup _ _ _ Hch) |].
  split; [exact Hdead |]. split; [exact Hrest |].
  split.
  { intros q Hq. simpl. rewrite lookup_delete_ne by congruence. apply (Hlists q Hq). }
  split; assumption.
Qed.

Lemma list_dtor_destroys_chain_witness :
  exists s',
    FreeListBase_dtor 3 200 list_of_two = Ok true s' /\
    lists s' !! 200 = None /\
    NoDup [10; 11] /\
    (forall p, p ∈ [10; 11] ->
       exists o, objs list_of_two !! p = Some o /\
                 objs s' !! p = Some (with_destroyed (with_u 200 o))) /\
    (forall q, q ∉ [10; 11] -> objs s' !! q = objs list_of_two !! q) /\
    (forall q, q <> 200 -> lists s' !! q = lists list_of_two !! q) /\
    shps s' = shps list_of_two /\ unmanaged s' = unmanaged list_of_two.
Proof.
  apply (list_dtor_destroys_chain list_of_two 200 (mkFreeListBase 10 2) [10; 11] 3).
  - reflexivity.
  - apply (free_chain_node _ 10 (node_object 0 11)); [discriminate | reflexivity |].
    apply (free_chain_node _ 11 (node_object 0 nullptr)); [discriminate | reflexivity |].
    apply free_chain_end.
  - intros p Hp. apply elem_of_cons in Hp. destruct Hp as [-> | Hp].
    + exists (node_object 0 11). split; [split; reflexivity | reflexivity].
    + apply list_elem_of_singleton in Hp. subst p.
      exists (node_object 0 nullptr). split; [split; reflexivity | reflexivity].
  - simpl. lia.
Defined.

(** * Comparison of handles *)

(** A copy of [h] at a free address [g]: it can be destroyed again, which
    gives back the state; while it exists the objects that had owners still
    have. *)
Lemma borrow_copy cat s h g p :
  shps s !! h = Some p -> shps s !! g = None ->
  (p <> nullptr ->
   exists o, live s p o /\ in_int_range (refcnt_ o) /\ 1 <= refcnt_ o) ->
  exists s1,
    Shp.construct cat g h s = Ok tt s1 /\
    Shp.dtor g s1 = Ok tt s /\
    shps s1 = <[g := p]> (shps s) /\
    (forall q oq, live s q oq -> 1 <= refcnt_ oq < INT_MAX ->
       exists oq', live s1 q oq' /\ in_int_range (refcnt_ oq') /\ 1 <= refcnt_ oq').
Proof.
  intros Hh Hg Hp.
  destruct (decide (p = nullptr)) as [-> | Hnz].
  - exists (set_shps <[g := nullptr]> s).
    split; [apply (construct_from_empty cat s g h Hh) |].
    split.
    { rewrite dtor_empty by apply lookup_insert_eq.
      f_equal. destruct s as [ob li sh un]. unfold set_shps. simpl in *.
      rewrite (delete_insert_id sh g nullptr Hg). reflexivity. }
    split; [reflexivity |].
    intros q oq Hq Hc. exists oq. split; [exact Hq |].
    unfold in_int_range, INT_MAX in *. lia.
  - destruct (Hp Hnz) as (o & Hl & Hr & Hc).
    set (o1 := with_refcnt (wrap_int (refcnt_ o + 1)) o).
    set (s1 := set_objs <[p := o1]> (set_shps <[g := p]> s)).
    assert (Hl1 : live s1 p o1) by (split; [apply lookup_insert_eq | apply Hl]).
    assert (Hg1 : shps s1 !! g = Some p) by apply lookup_insert_eq.
    assert (Hne : refcnt_ o1 <> 1) by (apply wrap_int_inc_not_one; [exact Hr | lia]).
    exists s1.
    split; [apply (Shp_construct_copies cat s g h p o Hh Hnz Hl) |].
    split.
    { rewrite (dtor_Ok s1 g p _ _ Hg1 Hnz (decRef_live_not_last _ _ _ Hl1 Hne)).
      f_equal. unfold o1 at 1 2. rewrite with_refcnt_twice. simpl refcnt_.
      rewrite (wrap_int_inc_dec _ Hr), with_refcnt_same.
      apply state_restored; [exact Hg | apply Hl]. }
    split; [reflexivity |].
    intros q oq Hq Hcq.
    destruct (decide (q = p)) as [-> | Hqp].
    + assert (oq = o) as -> by (destruct Hq, Hl; congruence).
      exists o1. split; [exact Hl1 |].
      unfold o1. simpl refcnt_. rewrite wrap_int_inc_small by (exact Hr || lia).
      unfold in_int_range, INT_MAX in *. lia.
    + exists oq. split; [apply live_store_ne; [congruence | exact Hq] |].
      unfold in_int_range, INT_MAX in *. lia.
Qed.

(** X8.  [operator==] and [operator!=] compare the pointers of two handles
    and have no lasting effect.  Their by-value parameters are copies that
    take a share each and give it back: for operands that are empty or
    point to live objects with a counter from 1 up to, not including,
    [INT_MAX], the call returns whether the two pointers are equal
    (different for [!=]) in the very state it was called in, whatever the
    categories of the operands and also when both name one handle. *)
Theorem comparison_is_by_pointer_without_effect cl cr s l r lhs rhs pl pr :
  shps s !! l = Some pl -> shps s !! r = Some pr ->
  shps s !! lhs = None -> shps s !! rhs = None -> lhs <> rhs ->
  (pl <> nullptr -> exists o, live s pl o /\ 1 <= refcnt_ o < INT_MAX) ->
  (pr <> nullptr -> exists o, live s pr o /\ 1 <= refcnt_ o < INT_MAX) ->
  operator_eq cl cr l r lhs rhs s = Ok (pl =? pr) s /\
  operator_ne cl cr l r lhs rhs s = Ok (negb (pl =? pr)) s.
Proof.
  intros Hl Hr Hlhs Hrhs Hne Hpl Hpr.
  assert (Hrange : forall c, 1 <= c < INT_MAX -> in_int_range c /\ 1 <= c).
  { unfold in_int_range, INT_MAX. lia. }
  destruct (borrow_copy cl s l lhs pl Hl Hlhs) as (s1 & Hc1 & Hd1 & Hs1 & Hkeep).
  { intros Hnz. destruct (Hpl Hnz) as (o & Ho & Hc).
    exists o. split; [exact Ho | apply Hrange, Hc]. }
  assert (Hr1 : shps s1 !! r = Some pr).
  { rewrite Hs1, lookup_insert_ne; [exact Hr | congruence]. }
  assert (Hrhs1 : shps s1 !! rhs = None).
  { rewrite Hs1, lookup_insert_ne; [exact Hrhs | congruence]. }
  destruct (borrow_copy cr s1 r rhs pr Hr1 Hrhs1) as (s2 & Hc2 & Hd2 & Hs2 & _).
  { intros Hnz. destruct (Hpr Hnz) as (o & Ho & Hc). apply (Hkeep pr o Ho Hc). }
  assert (Hgl : Shp.get lhs s2 = Ok pl s2).
  { apply get_Ok. rewrite Hs2, lookup_insert_ne by congruence.
    rewrite Hs1. apply lookup_insert_eq. }
  assert (Hgr : Shp.get rhs s2 = Ok pr s2).
  { apply get_Ok. rewrite Hs2. apply lookup_insert_eq. }
  split.
  - unfold operator_eq.
    rewrite (bind_Ok _ _ _ _ _ Hc1), (bind_Ok _ _ _ _ _ Hc2).
    rewrite (bind_Ok _ _ _ _ _ Hgl), (bind_Ok _ _ _ _ _ Hgr).
    rewrite (bind_Ok _ _ _ _ _ Hd2), (bind_Ok _ _ _ _ _ Hd1). reflexivity.
  - unfold operator_ne.
    rewrite (bind_Ok _ _ _ _ _ Hc1), (bind_Ok _ _ _ _ _ Hc2).
    rewrite (bind_Ok _ _ _ _ _ Hgl), (bind_Ok _ _ _ _ _ Hgr).
    rewrite (bind_Ok _ _ _ _ _ Hd2), (bind_Ok _ _ _ _ _ Hd1). reflexivity.
Qed.

Lemma comparison_is_by_pointer_without_effect_witness :
  operator_eq lvalue lvalue 100 101 102 103 two_owners = Ok (10 =? 10) two_owners /\
  operator_ne lvalue lvalue 100 101 102 103 two_owners = Ok (negb (10 =? 10)) two_owners.
Proof.
  apply (comparison_is_by_pointer_without_effect lvalue lvalue two_owners
           100 101 102 103 10 10).
  - reflexivity.
  - reflexivity.
  - reflexivity.
  - reflexivity.
  - discriminate.
  - intros _. exists (plain_object 2). split; [split; reflexivity |].
    vm_compute. split; [discriminate | reflexivity].
  - intros _. exists (plain_object 2). split; [split; reflexivity |].
    vm_compute. split; [discriminate | reflexivity].
Defined.

(** * The counter is the number of handles *)

Lemma shares_insert (sh : gmap Z Z) h p q :
  shares (<[h := p]> sh) q = (share_of p q + shares (delete h sh) q)%nat.
Proof.
  unfold shares, share_of.
  destruct (decide (p = q)) as [E | E].
  - rewrite map_filter_insert_True by exact E.
    rewrite <- insert_delete_eq, <- map_filter_delete.
    rewrite map_size_insert_None; [reflexivity |].
    apply map_lookup_filter_None. left. apply lookup_delete_eq.
  - rewrite map_filter_insert_False by exact E. reflexivity.
Qed.

Lemma shares_lookup (sh : gmap Z Z) h p q :
  sh !! h = Some p ->
  shares sh q = (share_of p q + shares (delete h sh) q)%nat.
Proof.
  intros H. rewrite <- (insert_id sh h p H) at 1. apply shares_insert.
Qed.

Lemma shares_delete_fresh (sh : gmap Z Z) h q :
  sh !! h = None -> shares (delete h sh) q = shares sh q.
Proof. intros H. rewrite (delete_id sh h H). reflexivity. Qed.

Lemma shares_zero (sh : gmap Z Z) h p : shares sh p = 0%nat -> sh !! h <> Some p.
Proof.
  intros Hz Hh. rewrite (shares_lookup sh h p p Hh) in Hz.
  unfold share_of in Hz. destruct (decide (p = p)); [discriminate | contradiction].
Qed.

Lemma share_of_same p : share_of p p = 1%nat.
Proof. unfold share_of. destruct (decide (p = p)); [reflexivity | contradiction]. Qed.

Lemma share_of_other p q : p <> q -> share_of p q = 0%nat.
Proof. intros H. unfold share_of. destruct (decide (p = q)); [contradiction | reflexivity]. Qed.

Lemma counted_no_debt s :
  counted_by_handles s <-> counted_with_debt (objs s) (shps s) nullptr.
Proof.
  unfold counted_by_handles, counted_with_debt, live.
  split; intros [H1 H2]; (split; [| exact H2]); intros q o Hq Ho;
    specialize (H1 q o Hq Ho); rewrite share_of_other in * by congruence;
    rewrite Nat.add_0_r in *; exact H1.
Qed.

(** Pointing the handle [g] (which held [A], or nothing) to [B] and taking
    a share of [B] leaves the share of [A] to be given up. *)
Lemma retarget_debt ob sh g A B :
  counted_with_debt ob sh nullptr ->
  (forall q, q <> nullptr ->
     shares sh q = (share_of A q + shares (delete g sh) q)%nat) ->
  (B <> nullptr -> exists o, ob !! B = Some o /\ destroyed o = false /\
                             refcnt_ o < INT_MAX) ->
  counted_with_debt (acquired ob B) (<[g := B]> sh) A.
Proof.
  intros [H1 H2] Hold HB. unfold acquired.
  assert (Hsh : forall q, q <> nullptr ->
            (shares (<[g := B]> sh) q + share_of A q
             = share_of B q + shares sh q)%nat).
  { intros q Hq. rewrite shares_insert, (Hold q Hq). lia. }
  destruct (decide (B = nullptr)) as [-> | Hnz].
  - split.
    + intros q o Hq Ho. destruct (H1 q o Hq Ho) as [E Hm].
      rewrite share_of_other, Nat.add_0_r in E by congruence.
      rewrite (Hsh q Hq), share_of_other by congruence. split; [exact E | exact Hm].
    + intros h p Hh Hp. destruct (decide (h = g)) as [-> | Hne].
      * rewrite lookup_insert_eq in Hh. congruence.
      * rewrite lookup_insert_ne in Hh by congruence. apply (H2 h p Hh Hp).
  - destruct (HB Hnz) as (oB & HoB & HdB & HcB). rewrite HoB.
    destruct (H1 B oB Hnz HoB) as [EB _].
    rewrite share_of_other, Nat.add_0_r in EB by congruence.
    split.
    + intros q o Hq Ho. rewrite (Hsh q Hq).
      destruct (decide (q = B)) as [-> | Hne].
      * rewrite lookup_insert_eq in Ho. injection Ho as <-. simpl refcnt_.
        rewrite share_of_same.
        rewrite wrap_int_inc_small by (unfold in_int_range, INT_MAX in *; lia).
        unfold INT_MAX in *. lia.
      * rewrite lookup_insert_ne in Ho by congruence.
        destruct (H1 q o Hq Ho) as [E Hm].
        rewrite share_of_other, Nat.add_0_r in E by congruence.
        rewrite share_of_other by congruence. split; [exact E | exact Hm].
    + intros h p Hh Hp.
      assert (Hlive : exists o, ob !! p = Some o /\ destroyed o = false).
      { destruct (decide (h = g)) as [-> | Hne].
        - rewrite lookup_insert_eq in Hh. injection Hh as <-. exists oB. split; assumption.
        - rewrite lookup_insert_ne in Hh by congruence. apply (H2 h p Hh Hp). }
      destruct Hlive as (o & Ho & Hd).
      destruct (decide (p = B)) as [-> | Hne].
      * eexists. split; [apply lookup_insert_eq | exact HdB].
      * exists o. split; [rewrite lookup_insert_ne by congruence; exact Ho | exact Hd].
Qed.

(** Giving up the share that is due: after [decRef] on [A] every counter is
    the number of handles again. *)
Lemma release_debt s1 sh A oA :
  A <> nullptr -> live s1 A oA -> (refcnt_ oA = 1 -> hook_ready s1 oA) ->
  counted_with_debt (objs s1) sh A ->
  exists s2,
    decRef A s1 = Ok (refcnt_ oA) s2 /\ shps s2 = shps s1 /\
    counted_with_debt (objs s2) sh nullptr.
Proof.
  intros Hnz Hl Hr [H1 H2].
  destruct (decRef_effect s1 A oA Hl Hr)
    as (s2 & oA' & Hdec & Hlk & Hcnt & _ & Hsh & Hfr & _ & Hno).
  exists s2. split; [exact Hdec |]. split; [exact Hsh |].
  destruct (H1 A oA Hnz (proj1 Hl)) as [EA HmA].
  rewrite share_of_same in EA.
  assert (Hdown : wrap_int (refcnt_ oA - 1) = refcnt_ oA - 1).
  { apply wrap_int_id. unfold in_int_range, INT_MAX in *. lia. }
  split.
  - intros q o Hq Ho. rewrite share_of_other, Nat.add_0_r by congruence.
    destruct (decide (q = A)) as [-> | Hne].
    + assert (o = oA') as -> by congruence.
      rewrite Hcnt, Hdown. lia.
    + rewrite (Hfr q Hne) in Ho. destruct (H1 q o Hq Ho) as [E Hm].
      rewrite share_of_other, Nat.add_0_r in E by congruence.
      split; [exact E | exact Hm].
  - intros h p Hh Hp. destruct (H2 h p Hh Hp) as (o & Ho & Hd).
    destruct (decide (p = A)) as [-> | Hne].
    + assert (Hge : (1 <= shares sh A)%nat).
      { rewrite (shares_lookup sh h A A Hh), share_of_same. lia. }
      assert (Hnl : refcnt_ oA <> 1) by lia.
      destruct (Hno Hnl) as (_ & _ & ->).
      eexists. split; [apply lookup_insert_eq | apply Hl].
    + exists o. split; [rewrite (Hfr p Hne); exact Ho | exact Hd].
Qed.

Lemma shares_held (sh : gmap Z Z) h A :
  sh !! h = Some A ->
  forall q, q <> nullptr -> shares sh q = (share_of A q + shares (delete h sh) q)%nat.
Proof. intros H q _. apply (shares_lookup sh h A q H). Qed.

Lemma shares_unheld (sh : gmap Z Z) g :
  sh !! g = None ->
  forall q, q <> nullptr ->
    shares sh q = (share_of nullptr q + shares (delete g sh) q)%nat.
Proof.
  intros H q Hq. rewrite share_of_other by congruence.
  rewrite (shares_delete_fresh sh g q H). reflexivity.
Qed.

(** Taking the handle [h] away, or clearing it, leaves its share to be
    given up. *)
Lemma drop_debt ob sh h p :
  counted_with_debt ob sh nullptr -> sh !! h = Some p ->
  counted_with_debt ob (delete h sh) p /\
  counted_with_debt ob (<[h := nullptr]> sh) p.
Proof.
  intros [H1 H2] Hh.
  assert (Hobj : forall sh',
            (forall q, q <> nullptr -> shares sh' q = shares (delete h sh) q) ->
            forall q o, q <> nullptr -> ob !! q = Some o ->
              refcnt_ o = Z.of_nat (shares sh' q + share_of p q) /\ refcnt_ o <= INT_MAX).
  { intros sh' Hsh' q o Hq Ho. destruct (H1 q o Hq Ho) as [E Hm].
    rewrite share_of_other, Nat.add_0_r in E by congruence.
    rewrite (Hsh' q Hq). rewrite (shares_lookup sh h p q Hh) in E.
    split; [rewrite E; f_equal; lia | exact Hm]. }
  split; split.
  - apply Hobj. reflexivity.
  - intros h' p' Hh' Hp'. apply lookup_delete_Some in Hh'. apply (H2 h' p' (proj2 Hh') Hp').
  - apply Hobj. intros q Hq. rewrite shares_insert, share_of_other by congruence.
    reflexivity.
  - intros h' p' Hh' Hp'. destruct (decide (h' = h)) as [-> | Hne].
    + rewrite lookup_insert_eq in Hh'. congruence.
    + rewrite lookup_insert_ne in Hh' by congruence. apply (H2 h' p' Hh' Hp').
Qed.

(** Moving the pointer of [h2] over to [h1] leaves the old share of [h1] to
    be given up, and nothing else. *)
Lemma move_debt ob sh h1 h2 A B :
  counted_with_debt ob sh nullptr -> sh !! h1 = Some A -> sh !! h2 = Some B ->
  counted_with_debt ob (<[h2 := nullptr]> (<[h1 := B]> sh)) A.
Proof.
  intros [H1 H2] Hh1 Hh2.
  assert (Hh2' : <[h1 := B]> sh !! h2 = Some B).
  { destruct (decide (h1 = h2)) as [-> | Hne];
      [apply lookup_insert_eq | rewrite lookup_insert_ne by congruence; exact Hh2]. }
  split.
  - intros q o Hq Ho. destruct (H1 q o Hq Ho) as [E Hm].
    rewrite share_of_other, Nat.add_0_r in E by congruence.
    split; [| exact Hm]. rewrite E. f_equal.
    rewrite shares_insert, share_of_other by congruence.
    pose proof (shares_lookup _ h2 B q Hh2') as E1.
    pose proof (shares_insert sh h1 B q) as E2.
    pose proof (shares_lookup sh h1 A q Hh1) as E3. lia.
  - intros h p Hh Hp. destruct (decide (h = h2)) as [-> | Hne2].
    + rewrite lookup_insert_eq in Hh. congruence.
    + rewrite lookup_insert_ne in Hh by congruence.
      destruct (decide (h = h1)) as [-> | Hne1].
      * rewrite lookup_insert_eq in Hh. injection Hh as <-. apply (H2 h2 B Hh2 Hp).
      * rewrite lookup_insert_ne in Hh by congruence. apply (H2 h p Hh Hp).
Qed.

(** Exchanging the pointers of two handles changes no number of shares. *)
Lemma swap_debt ob sh a b pa pb :
  counted_with_debt ob sh nullptr -> sh !! a = Some pa -> sh !! b = Some pb ->
  counted_with_debt ob (<[a := pb]> (<[b := pa]> sh)) nullptr.
Proof.
  intros [H1 H2] Ha Hb.
  split.
  - intros q o Hq Ho. destruct (H1 q o Hq Ho) as [E Hm].
    split; [| exact Hm]. rewrite E. f_equal. f_equal.
    destruct (decide (a = b)) as [-> | Hne].
    + assert (pa = pb) as -> by congruence.
      rewrite insert_insert_eq, shares_insert.
      apply (shares_lookup sh b pb q Hb).
    + rewrite shares_insert, (delete_insert_ne _ a b) by congruence.
      rewrite shares_insert.
      rewrite (shares_lookup sh a pa q Ha).
      assert (Hb' : delete a sh !! b = Some pb)
        by (rewrite lookup_delete_ne by congruence; exact Hb).
      rewrite (shares_lookup _ b pb q Hb'). lia.
  - intros h p Hh Hp. destruct (decide (h = a)) as [-> | Hna].
    + rewrite lookup_insert_eq in Hh. injection Hh as <-. apply (H2 b pb Hb Hp).
    + rewrite lookup_insert_ne in Hh by congruence.
      destruct (decide (h = b)) as [-> | Hnb].
      * rewrite lookup_insert_eq in Hh. injection Hh as <-. apply (H2 a pa Ha Hp).
      * rewrite lookup_insert_ne in Hh by congruence. apply (H2 h p Hh Hp).
Qed.

(** Taking a share of [B] for the handle [g], whose pointer has just been
    set to [B]. *)
Lemma acquire_step s g B :
  (B <> nullptr -> exists o, live s B o) ->
  exists sb,
    when_ptr B (do incRef B then ret tt) (set_shps <[g := B]> s) = Ok tt sb /\
    objs sb = acquired (objs s) B /\ shps sb = <[g := B]> (shps s) /\
    lists sb = lists s /\ unmanaged sb = unmanaged s.
Proof.
  intros HB. unfold acquired.
  destruct (decide (B = nullptr)) as [-> | Hnz].
  - eexists. split; [reflexivity |]. repeat split.
  - destruct (HB Hnz) as (o & Hl). rewrite (proj1 Hl).
    rewrite (when_ptr_nonnull _ _ Hnz).
    assert (Hl' : live (set_shps <[g := B]> s) B o) by exact Hl.
    rewrite (bind_Ok _ _ _ _ _ (incRef_live _ _ _ Hl')).
    eexists. split; [reflexivity |]. repeat split.
Qed.

Lemma acquired_live ob B p o :
  ob !! p = Some o -> destroyed o = false ->
  exists o', acquired ob B !! p = Some o' /\ destroyed o' = false /\
             vptr o' = vptr o /\ u_ o' = u_ o.
Proof.
  intros Ho Hd. unfold acquired.
  destruct (decide (B = nullptr)); [exists o; repeat split; assumption |].
  destruct (ob !! B) as [oB |] eqn:HB; [| exists o; repeat split; assumption].
  destruct (decide (p = B)) as [-> | Hne].
  - assert (oB = o) as -> by congruence.
    eexists. split; [apply lookup_insert_eq |]. repeat split. exact Hd.
  - exists o. rewrite lookup_insert_ne by congruence. repeat split; assumption.
Qed.

(** The end of the share of [A], if there is an [A], in a state whose
    counters are that share away from the handles [sh]. *)
Lemma settle s1 sh A :
  counted_with_debt (objs s1) sh A ->
  (A <> nullptr -> exists oA, live s1 A oA /\ (refcnt_ oA = 1 -> hook_ready s1 oA)) ->
  exists s2,
    when_ptr A (do decRef A then ret tt) s1 = Ok tt s2 /\
    shps s2 = shps s1 /\
    counted_with_debt (objs s2) sh nullptr.
Proof.
  intros Hdebt HA.
  destruct (decide (A = nullptr)) as [-> | Hnz].
  - exists s1. split; [reflexivity |]. split; [reflexivity | exact Hdebt].
  - destruct (HA Hnz) as (oA & Hl & Hr).
    destruct (release_debt s1 sh A oA Hnz Hl Hr Hdebt) as (s2 & Hdec & Hsh & Hc).
    exists s2. split; [| split; assumption].
    rewrite (when_ptr_nonnull _ _ Hnz), (bind_Ok _ _ _ _ _ Hdec). reflexivity.
Qed.

(** A live object in [s] is live in a state with the same objects up to
    shares taken, the same lists, and its hook can run there as well. *)
Lemma hook_carried s s1 A B :
  objs s1 = acquired (objs s) B -> lists s1 = lists s ->
  hook_can_run s A -> (exists o, live s A o) ->
  exists oA, live s1 A oA /\ (refcnt_ oA = 1 -> hook_ready s1 oA).
Proof.
  intros Hob Hli Hhook (o & Ho & Hd).
  destruct (acquired_live (objs s) B A o Ho Hd) as (o' & Ho' & Hd' & Hv & Hu).
  exists o'. split; [split; [rewrite Hob; exact Ho' | exact Hd'] |].
  intros _. specialize (Hhook o (conj Ho Hd)).
  unfold hook_ready in *. rewrite Hv, Hu, Hli. exact Hhook.
Qed.

Lemma acquired_nothing ob : acquired ob nullptr = ob.
Proof. reflexivity. Qed.

Lemma ctor_ptr_counted s g p :
  counted_by_handles s -> shps s !! g = None ->
  (p <> nullptr -> exists o, live s p o) -> has_room s p ->
  exists s', Shp.ctor_ptr g p s = Ok tt s' /\ counted_by_handles s'.
Proof.
  intros Hinv Hg Hp Hroom.
  destruct (acquire_step s g p Hp) as (sb & Hrun & Hob & Hsh & _).
  exists sb. split.
  - unfold Shp.ctor_ptr. rewrite bind_set_p_. exact Hrun.
  - apply counted_no_debt. rewrite Hob, Hsh.
    apply retarget_debt;
      [apply counted_no_debt, Hinv | apply (shares_unheld _ _ Hg) |].
    intros Hnz. destruct (Hp Hnz) as (o & Hl).
    exists o. split; [apply Hl |]. split; [apply Hl | apply (Hroom o Hl)].
Qed.

Lemma construct_counted cat s g h p :
  counted_by_handles s -> shps s !! g = None -> shps s !! h = Some p ->
  has_room s p ->
  exists s', Shp.construct cat g h s = Ok tt s' /\ counted_by_handles s'.
Proof.
  intros Hinv Hg Hh Hroom.
  destruct (ctor_ptr_counted s g p Hinv Hg) as (s' & Hrun & Hc);
    [intros Hnz; apply (proj2 Hinv h p Hh Hnz) | exact Hroom |].
  exists s'. split; [| exact Hc].
  assert (E : Shp.construct cat g h = Shp.ctor_copy_tag g h)
    by (destruct cat; reflexivity).
  rewrite E. unfold Shp.ctor_copy_tag.
  rewrite (bind_Ok _ _ _ _ _ (get_Ok _ _ _ Hh)). exact Hrun.
Qed.

Lemma held_hook s h p :
  counted_by_handles s -> shps s !! h = Some p -> hook_can_run s p ->
  p <> nullptr -> exists o, live s p o /\ (refcnt_ o = 1 -> hook_ready s o).
Proof.
  intros Hinv Hh Hhook Hnz.
  destruct (proj2 Hinv h p Hh Hnz) as (o & Hl).
  exists o. split; [exact Hl | intros _; apply (Hhook o Hl)].
Qed.

Lemma dtor_counted s h p :
  counted_by_handles s -> shps s !! h = Some p -> hook_can_run s p ->
  exists s', Shp.dtor h s = Ok tt s' /\ counted_by_handles s'.
Proof.
  intros Hinv Hh Hhook.
  destruct (drop_debt _ _ h p (proj1 (counted_no_debt s) Hinv) Hh) as [Hdebt _].
  destruct (settle s (delete h (shps s)) p Hdebt (held_hook s h p Hinv Hh Hhook))
    as (s2 & Hrun & Hsh & Hc).
  exists (set_shps (delete h) s2). split.
  - unfold Shp.dtor. rewrite (bind_Ok _ _ _ _ _ (get_Ok _ _ _ Hh)).
    rewrite (bind_Ok _ _ _ _ _ Hrun). reflexivity.
  - apply counted_no_debt. simpl. rewrite Hsh. exact Hc.
Qed.

Lemma reset_counted s h p :
  counted_by_handles s -> shps s !! h = Some p -> hook_can_run s p ->
  exists s', Shp.reset h s = Ok tt s' /\ counted_by_handles s'.
Proof.
  intros Hinv Hh Hhook. unfold Shp.reset.
  rewrite (bind_Ok _ _ _ _ _ (get_Ok _ _ _ Hh)).
  destruct (decide (p = nullptr)) as [-> | Hnz].
  - exists s. split; [reflexivity | exact Hinv].
  - destruct (drop_debt _ _ h p (proj1 (counted_no_debt s) Hinv) Hh) as [_ Hdebt].
    destruct (held_hook s h p Hinv Hh Hhook Hnz) as (o & Hl & Hr).
    destruct (release_debt s _ p o Hnz Hl Hr Hdebt) as (s2 & Hdec & Hsh & Hc).
    exists (set_shps <[h := nullptr]> s2). split.
    + rewrite (when_ptr_nonnull _ _ Hnz), (bind_Ok _ _ _ _ _ Hdec). reflexivity.
    + apply counted_no_debt. simpl. rewrite Hsh. exact Hc.
Qed.

Lemma swap_counted s a b pa pb :
  counted_by_handles s -> shps s !! a = Some pa -> shps s !! b = Some pb ->
  exists s', Shp.swap a b s = Ok tt s' /\ counted_by_handles s'.
Proof.
  intros Hinv Ha Hb.
  exists (set_shps <[a := pb]> (set_shps <[b := pa]> s)). split.
  - unfold Shp.swap.
    rewrite (bind_Ok _ _ _ _ _ (get_Ok _ _ _ Hb)).
    rewrite (bind_Ok _ _ _ _ _ (get_Ok _ _ _ Ha)). reflexivity.
  - apply counted_no_debt. simpl.
    apply (swap_debt _ _ a b pa pb (proj1 (counted_no_debt s) Hinv) Ha Hb).
Qed.

Lemma assign_copy_counted s h1 h2 A B :
  counted_by_handles s -> shps s !! h1 = Some A -> shps s !! h2 = Some B ->
  hook_can_run s A -> has_room s B ->
  exists s', Shp.assign_copy_tmpl h1 h2 s = Ok tt s' /\ counted_by_handles s'.
Proof.
  intros Hinv Hh1 Hh2 Hhook Hroom.
  assert (HB : B <> nullptr -> exists o, live s B o)
    by (intros Hnz; apply (proj2 Hinv h2 B Hh2 Hnz)).
  destruct (acquire_step s h1 B HB) as (sb & Hacq & Hob & Hsh & Hli & _).
  assert (Hdebt : counted_with_debt (objs sb) (shps sb) A).
  { rewrite Hob, Hsh.
    apply retarget_debt;
      [apply counted_no_debt, Hinv | apply (shares_held _ _ _ Hh1) |].
    intros Hnz. destruct (HB Hnz) as (o & Hl).
    exists o. split; [apply Hl |]. split; [apply Hl | apply (Hroom o Hl)]. }
  destruct (settle sb (shps sb) A Hdebt) as (s2 & Hrun & Hsh2 & Hc).
  { intros Hnz. apply (hook_carried s sb A B Hob Hli Hhook).
    apply (proj2 Hinv h1 A Hh1 Hnz). }
  exists s2. split.
  - unfold Shp.assign_copy_tmpl.
    rewrite (bind_Ok _ _ _ _ _ (get_Ok _ _ _ Hh1)).
    rewrite (bind_Ok _ _ _ _ _ (get_Ok _ _ _ Hh2)).
    rewrite bind_set_p_, (bind_Ok _ _ _ _ _ Hacq). exact Hrun.
  - apply counted_no_debt. rewrite Hsh2. exact Hc.
Qed.

Lemma assign_move_counted s h1 h2 A B :
  counted_by_handles s -> shps s !! h1 = Some A -> shps s !! h2 = Some B ->
  hook_can_run s A ->
  exists s', Shp.assign_move_tmpl h1 h2 s = Ok tt s' /\ counted_by_handles s'.
Proof.
  intros Hinv Hh1 Hh2 Hhook. unfold Shp.assign_move_tmpl.
  rewrite (bind_Ok _ _ _ _ _ (get_Ok _ _ _ Hh1)).
  rewrite (bind_Ok _ _ _ _ _ (get_Ok _ _ _ Hh2)).
  rewrite bind_set_p_.
  destruct (Z.eqb_spec A B) as [<- | Hne].
  - exists s. split; [rewrite (set_shps_id _ _ _ Hh1); reflexivity | exact Hinv].
  - set (s1 := set_shps <[h1 := B]> s).
    pose proof (move_debt _ _ h1 h2 A B (proj1 (counted_no_debt s) Hinv) Hh1 Hh2)
      as Hdebt.
    destruct (settle s1 _ A Hdebt) as (s2 & Hrun & Hsh2 & Hc).
    { intros Hnz. apply (held_hook s h1 A Hinv Hh1 Hhook Hnz). }
    exists (set_shps <[h2 := nullptr]> s2). split.
    + rewrite (bind_Ok _ _ _ _ _ Hrun). reflexivity.
    + apply counted_no_debt. simpl. rewrite Hsh2. exact Hc.
Qed.

(** X9.  The counter of every object is the number of handles that point
    to it, and the operations of the first text of [Shp] keep it so.  From
    a state in which every counter equals the number of handles on its
    object (and is an [int]) and every non-empty handle points to a live
    object, each of these returns and leaves such a state: construction
    from a pointer, copy and move construction, destruction, [reset],
    [swap], and every form of assignment (copy or move, same or other
    element type, the two handles being the same one or not).  Needed are
    only room below [INT_MAX] in the counter that goes up and a hook that
    can run for the object whose share is given up. *)
Theorem handles_keep_counters s :
  counted_by_handles s ->
  (forall g p,
     shps s !! g = None -> (p <> nullptr -> exists o, live s p o) -> has_room s p ->
     exists s', Shp.ctor_ptr g p s = Ok tt s' /\ counted_by_handles s') /\
  (forall cat g h p,
     shps s !! g = None -> shps s !! h = Some p -> has_room s p ->
     exists s', Shp.construct cat g h s = Ok tt s' /\ counted_by_handles s') /\
  (forall h p,
     shps s !! h = Some p -> hook_can_run s p ->
     (exists s', Shp.dtor h s = Ok tt s' /\ counted_by_handles s') /\
     (exists s', Shp.reset h s = Ok tt s' /\ counted_by_handles s')) /\
  (forall a b pa pb,
     shps s !! a = Some pa -> shps s !! b = Some pb ->
     exists s', Shp.swap a b s = Ok tt s' /\ counted_by_handles s') /\
  (forall cat same_type h1 h2 A B,
     shps s !! h1 = Some A -> shps s !! h2 = Some B ->
     hook_can_run s A -> has_room s B ->
     exists s', Shp.assign cat same_type h1 h2 s = Ok tt s' /\ counted_by_handles s').
Proof.
  intros Hinv.
  split; [intros g p; apply (ctor_ptr_counted s g p Hinv) |].
  split; [intros cat g h p; apply (construct_counted cat s g h p Hinv) |].
  split.
  { intros h p Hh Hhook.
    split; [apply (dtor_counted s h p Hinv Hh Hhook)
           | apply (reset_counted s h p Hinv Hh Hhook)]. }
  split; [intros a b pa pb; apply (swap_counted s a b pa pb Hinv) |].
  intros cat same_type h1 h2 A B Hh1 Hh2 Hhook Hroom.
  destruct cat, same_type; simpl;
    try apply (assign_copy_counted s h1 h2 A B Hinv Hh1 Hh2 Hhook Hroom).
  apply (assign_move_counted s h1 h2 A B Hinv Hh1 Hh2 Hhook).
Qed.

Lemma two_owners_counted : counted_by_handles two_owners.
Proof.
  split.
  - intros p o Hp Ho. simpl in Ho.
    destruct (decide (p = 10)) as [-> | Hne].
    + rewrite lookup_singleton_eq in Ho. injection Ho as <-.
      vm_compute. split; [reflexivity | discriminate].
    + rewrite lookup_singleton_ne in Ho by congruence. discriminate.
  - intros h p Hh Hp. simpl in Hh.
    assert (p = 10) as ->.
    { destruct (decide (h = 100)) as [-> | H1].
      - rewrite lookup_insert_eq in Hh. congruence.
      - rewrite lookup_insert_ne in Hh by congruence.
        destruct (decide (h = 101)) as [-> | H2].
        + rewrite lookup_singleton_eq in Hh. congruence.
        + rewrite lookup_singleton_ne in Hh by congruence. discriminate. }
    exists (plain_object 2). split; reflexivity.
Qed.

Lemma handles_keep_counters_witness :
  (exists s', Shp.construct xvalue 102 100 two_owners = Ok tt s' /\ counted_by_handles s') /\
  (exists s', Shp.dtor 100 two_owners = Ok tt s' /\ counted_by_handles s') /\
  (exists s', Shp.assign lvalue true 100 100 two_owners = Ok tt s' /\
              counted_by_handles s').
Proof.
  destruct (handles_keep_counters two_owners two_owners_counted)
    as (_ & Hcons & Hend & _ & Hassign).
  assert (Hroom : has_room two_owners 10).
  { intros o [Ho _]. vm_compute in Ho. injection Ho as <-. reflexivity. }
  assert (Hhook : hook_can_run two_owners 10).
  { intros o [Ho _]. vm_compute in Ho. injection Ho as <-. exact I. }
  split; [| split].
  - apply (Hcons xvalue 102 100 10); [reflexivity | reflexivity | exact Hroom].
  - apply (Hend 100 10); [reflexivity | exact Hhook].
  - apply (Hassign lvalue true 100 100 10 10);
      [reflexivity | reflexivity | exact Hhook | exact Hroom].
Defined.

(** * Nodes between the list and the handles *)

Lemma shares_unowned (sh : gmap Z Z) p :
  (forall h, sh !! h <> Some p) -> shares sh p = 0%nat.
Proof.
  intros H. unfold shares. apply map_size_empty_iff, map_empty. intros h.
  apply map_lookup_filter_None. right. intros q Hq E. simpl in E. subst q.
  apply (H h Hq).
Qed.

Lemma unowned_counter s p o :
  counted_by_handles s -> p <> nullptr -> live s p o -> unowned s p -> refcnt_ o = 0.
Proof.
  intros [H1 _] Hnz [Ho _] Hun.
  destruct (H1 p o Hnz Ho) as [E _]. rewrite E, (shares_unowned _ _ Hun). reflexivity.
Qed.

(** Writing the link word of a node changes no counter. *)
Lemma relink_counted s p o w (f : gmap Z FreeListBase -> gmap Z FreeListBase) :
  counted_by_handles s -> live s p o ->
  counted_by_handles (set_lists f (set_objs <[p := with_u w o]> s)).
Proof.
  intros [H1 H2] [Ho Hd]. split.
  - intros q oq Hq Hoq. simpl in *.
    destruct (decide (q = p)) as [-> | Hne].
    + rewrite lookup_insert_eq in Hoq. injection Hoq as <-. apply (H1 p o Hq Ho).
    + rewrite lookup_insert_ne in Hoq by congruence. apply (H1 q oq Hq Hoq).
  - intros h q Hh Hq. destruct (H2 h q Hh Hq) as (oq & Hoq & Hdq).
    destruct (decide (q = p)) as [-> | Hne].
    + exists (with_u w o). split; [apply lookup_insert_eq | exact Hd].
    + exists oq. split; [simpl; rewrite lookup_insert_ne by congruence; exact Hoq | exact Hdq].
Qed.

Lemma ctor_ptr_counted_live s g p o :
  counted_by_handles s -> shps s !! g = None ->
  p <> nullptr -> live s p o -> refcnt_ o < INT_MAX ->
  counted_by_handles
    (set_objs <[p := with_refcnt (wrap_int (refcnt_ o + 1)) o]>
       (set_shps <[g := p]> s)).
Proof.
  intros Hinv Hg Hnz Hl Hc.
  destruct (ctor_ptr_counted s g p Hinv Hg) as (s' & Hrun & Hcnt).
  - intros _. exists o. exact Hl.
  - intros o' [Ho' _]. destruct Hl as [Ho _]. congruence.
  - rewrite (ctor_ptr_live s g p o Hnz Hl) in Hrun. injection Hrun as <-. exact Hcnt.
Qed.

Lemma null_handle_counted s g :
  counted_by_handles s -> shps s !! g = None ->
  counted_by_handles (set_shps <[g := nullptr]> s).
Proof.
  intros Hinv Hg. apply counted_no_debt. simpl.
  rewrite <- (acquired_nothing (objs s)).
  apply retarget_debt;
    [apply counted_no_debt, Hinv | apply (shares_unheld _ _ Hg) | contradiction].
Qed.

(** X10.  A node is either parked on the list or owned by handles, and
    [get<T>()] and [put] keep it so.  In a state where every counter is the
    number of handles on its object and the chain of the list holds live
    nodes that no handle points to: [get<T>()] never throws; it returns a
    handle on the first node of the chain, which leaves the chain (an
    empty handle if the chain is empty).  [put] of a live node that no
    handle points to and that is not on the chain never throws and parks
    the node in front.  Both leave a state of the same kind. *)
Theorem list_and_handles_agree s this l :
  counted_by_handles s -> parked s this l ->
  (forall result,
     shps s !! result = None ->
     exists s',
       get this result s = Ok tt s' /\
       shps s' !! result = Some (hd nullptr l) /\
       counted_by_handles s' /\ parked s' this (tl l)) /\
  (forall p o,
     p <> nullptr -> live s p o -> unowned s p -> p ∉ l ->
     exists s',
       put this p s = Ok tt s' /\
       counted_by_handles s' /\ parked s' this (p :: l)).
Proof.
  intros Hinv [Hcc Hnodes].
  pose proof Hcc as (L & HL & Hch & Hnd & Hav).
  split.
  - intros result Hres. destruct l as [| p l'].
    + inversion Hch as [Ha |]; subst.
      exists (set_shps <[result := nullptr]> s).
      split.
      { unfold get.
        rewrite (bind_Ok _ _ _ _ _ (getRaw_empty s this L HL (eq_sym Ha))). reflexivity. }
      split; [apply lookup_insert_eq |].
      split; [apply (null_handle_counted s result Hinv Hres) |].
      split; [exact Hcc | intros q Hq; inversion Hq].
    + inversion Hch as [| p0 o0 l0 Hnz Hlk Hrest Ep]; subst.
      set (p := anchor_ L) in *.
      destruct (Hnodes p (list_elem_of_here _ _)) as [[o Hl] Hun].
      pose proof (unowned_counter s p o Hinv Hnz Hl Hun) as Hc.
      pose proof (getRaw_head s this L o HL Hnz Hl Hc) as Hget. fold p in Hget.
      set (s1 := set_lists _ _) in Hget.
      assert (Hinv1 : counted_by_handles s1) by (apply relink_counted; assumption).
      assert (Hl1 : live s1 p (with_u this o))
        by (split; [apply lookup_insert_eq | apply Hl]).
      destruct (getRaw_counted s this (p :: l') p s1 Hcc Hget)
        as [(E & _) | (l'' & E & Hcc1)]; [discriminate |].
      injection E as <-.
      apply NoDup_cons in Hnd. destruct Hnd as [Hnot _].
      set (s' := set_objs <[p := with_refcnt (wrap_int (refcnt_ (with_u this o) + 1))
                                  (with_u this o)]>
                   (set_shps <[result := p]> s1)).
      exists s'.
      split.
      { unfold get. rewrite (bind_Ok _ _ _ _ _ Hget).
        apply (ctor_ptr_live s1 result p _ Hnz Hl1). }
      split; [apply lookup_insert_eq |].
      split.
      { apply (ctor_ptr_counted_live s1 result p _ Hinv1 Hres Hnz Hl1).
        simpl. rewrite Hc. reflexivity. }
      simpl tl. split.
      { destruct Hcc1 as (L1 & HL1 & Hch1 & Hnd1 & Hav1).
        exists L1. split; [exact HL1 |]. split; [| split; assumption].
        apply (free_chain_frame (objs s1)); [exact Hch1 |].
        intros q Hq. apply lookup_insert_ne. intros ->. contradiction. }
      intros q Hq.
      assert (Hqp : q <> p) by (intros ->; contradiction).
      destruct (Hnodes q (list_elem_of_further _ _ _ Hq)) as [[oq Hlq] Hunq].
      split.
      { exists oq. split; [| apply Hlq]. simpl.
        rewrite !lookup_insert_ne by congruence. apply Hlq. }
      intros h Hh. simpl in Hh. destruct (decide (h = result)) as [-> | Hne].
      * rewrite lookup_insert_eq in Hh. congruence.
      * rewrite lookup_insert_ne in Hh by congruence. apply (Hunq h Hh).
  - intros p o Hnz Hl Hun Hnot.
    pose proof (unowned_counter s p o Hinv Hnz Hl Hun) as Hc.
    pose proof (put_live s this L p o HL Hl Hc) as Hput.
    set (s' := set_lists _ _) in Hput.
    exists s'. split; [exact Hput |].
    split; [apply relink_counted; assumption |].
    split; [apply (put_counted s this l p s' Hcc Hnz Hnot Hput) |].
    intros q Hq. apply elem_of_cons in Hq. destruct Hq as [-> | Hq].
    + split; [| exact Hun].
      exists (with_u (anchor_ L) o). split; [apply lookup_insert_eq | apply Hl].
    + assert (Hqp : q <> p) by (intros ->; contradiction).
      destruct (Hnodes q Hq) as [[oq Hlq] Hunq].
      split; [| exact Hunq].
      exists oq. split; [| apply Hlq]. simpl.
      rewrite lookup_insert_ne by congruence. apply Hlq.
Qed.

Lemma list_and_spare_objects p o :
  objs list_and_spare !! p = Some o -> p = 10 \/ p = 11 \/ p = 12 \/ p = 13.
Proof.
  intros Ho. simpl in Ho.
  destruct (decide (p = 10)); [tauto |].
  destruct (decide (p = 11)); [tauto |].
  destruct (decide (p = 12)); [tauto |].
  destruct (decide (p = 13)); [tauto |].
  rewrite !lookup_insert_ne, lookup_singleton_ne in Ho by congruence. discriminate.
Qed.

Lemma list_and_spare_handles h p :
  shps list_and_spare !! h = Some p -> h = 100 /\ p = 12.
Proof.
  intros Hh. simpl in Hh. destruct (decide (h = 100)) as [-> | Hne].
  - rewrite lookup_singleton_eq in Hh. split; congruence.
  - rewrite lookup_singleton_ne in Hh by congruence. discriminate.
Qed.

Lemma list_and_spare_counted : counted_by_handles list_and_spare.
Proof.
  split.
  - intros p o Hp Ho.
    destruct (list_and_spare_objects p o Ho) as [-> | [-> | [-> | ->]]];
      vm_compute in Ho; injection Ho as <-; vm_compute;
      (split; [reflexivity | discriminate]).
  - intros h p Hh Hp. destruct (list_and_spare_handles h p Hh) as [-> ->].
    exists (node_object 1 200). split; reflexivity.
Qed.

Lemma list_and_spare_parked : parked list_and_spare 200 [10; 11].
Proof.
  split.
  - exists (mkFreeListBase 10 2). split; [reflexivity |]. split; [| split].
    + apply (free_chain_node _ 10 (node_object 0 11)); [discriminate | reflexivity |].
      apply (free_chain_node _ 11 (node_object 0 nullptr));
        [discriminate | reflexivity | apply free_chain_end].
    + apply NoDup_cons. split; [| apply NoDup_singleton].
      intros H. apply list_elem_of_singleton in H. discriminate.
    + reflexivity.
  - intros p Hp.
    assert (Hun : p <> 12 -> unowned list_and_spare p).
    { intros Hne h Hh. destruct (list_and_spare_handles h p Hh). congruence. }
    apply elem_of_cons in Hp. destruct Hp as [-> | Hp].
    + split; [exists (node_object 0 11); split; reflexivity | apply Hun; discriminate].
    + apply list_elem_of_singleton in Hp. subst p.
      split; [exists (node_object 0 nullptr); split; reflexivity | apply Hun; discriminate].
Qed.

Lemma list_and_handles_agree_witness :
  (exists s',
     get 200 101 list_and_spare = Ok tt s' /\
     shps s' !! 101 = Some (hd nullptr [10; 11]) /\
     counted_by_handles s' /\ parked s' 200 (tl [10; 11])) /\
  (exists s',
     put 200 13 list_and_spare = Ok tt s' /\
     counted_by_handles s' /\ parked s' 200 [13; 10; 11]).
Proof.
  destruct (list_and_handles_agree list_and_spare 200 [10; 11]
              list_and_spare_counted list_and_spare_parked) as [Hget Hput].
  split.
  - apply Hget. reflexivity.
  - apply (Hput 13 (node_object 0 nullptr)).
    + discriminate.
    + split; reflexivity.
    + intros h Hh. destruct (list_and_spare_handles h 13 Hh). discriminate.
    + intros H. apply elem_of_cons in H. destruct H as [H | H]; [discriminate |].
      apply list_elem_of_singleton in H. discriminate.
Defined.

(** * The decrement-first copy assignment between two handles *)




(** * What a handle shows of the counter *)

(** [operator bool], [get] and [use_count] only read. *)
Lemma observers_read_only s h p :
  shps s !! h = Some p ->
  Shp.get h s = Ok p s /\ Shp.to_bool h s = Ok (negb (p =? nullptr)) s.
Proof.
  intros Hh. split; [apply (get_Ok _ _ _ Hh) |].
  unfold Shp.to_bool. rewrite (bind_Ok _ _ _ _ _ (get_Ok _ _ _ Hh)). reflexivity.
Qed.

(** X12.  In a state where every counter is the number of handles on its
    object, [use_count] of a handle returns the number of handles that
    share its object (itself included) and 0 for an empty handle,
    [operator bool] is true exactly when [use_count] is at least 1, and
    neither changes the state. *)
Theorem use_count_is_number_of_handles s h p :
  counted_by_handles s -> shps s !! h = Some p ->
  exists c b,
    Shp.use_count h s = Ok c s /\ Shp.to_bool h s = Ok b s /\
    (p <> nullptr -> c = Z.of_nat (shares (shps s) p) /\ 1 <= c) /\
    (p = nullptr -> c = 0) /\
    (b = true <-> 1 <= c).
Proof.
  intros Hinv Hh.
  destruct (observers_read_only s h p Hh) as [_ Hb].
  destruct (decide (p = nullptr)) as [-> | Hnz].
  - exists 0, false. split.
    { unfold Shp.use_count. rewrite (bind_Ok _ _ _ _ _ (get_Ok _ _ _ Hh)). reflexivity. }
    split; [exact Hb |]. split; [contradiction |]. split; [reflexivity |].
    split; [discriminate | lia].
  - destruct (proj2 Hinv h p Hh Hnz) as (o & Hl).
    destruct (proj1 Hinv p o Hnz (proj1 Hl)) as [E _].
    assert (Hge : (1 <= shares (shps s) p)%nat).
    { rewrite (shares_lookup _ h p p Hh), share_of_same. lia. }
    exists (refcnt_ o), true. split; [apply (Shp_use_count_live s h p o Hh Hnz Hl) |].
    split.
    { rewrite Hb. destruct (Z.eqb_spec p nullptr); [contradiction | reflexivity]. }
    split; [intros _; split; [exact E | lia] |].
    split; [contradiction |].
    split; [intros _; lia | reflexivity].
Qed.

Lemma use_count_is_number_of_handles_witness :
  exists c b,
    Shp.use_count 100 two_owners = Ok c two_owners /\
    Shp.to_bool 100 two_owners = Ok b two_owners /\
    (10 <> nullptr -> c = Z.of_nat (shares (shps two_owners) 10) /\ 1 <= c) /\
    (10 = nullptr -> c = 0) /\
    (b = true <-> 1 <= c).
Proof.
  apply (use_count_is_number_of_handles two_owners 100 10 two_owners_counted).
  reflexivity.
Defined.
